(** * GoatCounter export / import pipeline (export.go)

    A shallow embedding of [Export.Run], [Import], [ExportRow.Read] and
    [ExportRow.Hit], and the properties of the specification checked
    against it.

    Go strings are byte sequences and are modelled by [string]; [int],
    [int64] are modelled by [Z]; a nil-able pointer [*T] by [option T];
    Go maps by [gmap]; the Go [error] interface by the type [error] below
    (a nil error is [None]). *)

From Stdlib Require Import ZArith String Ascii List DecimalString Lia.
From stdpp Require Import gmap strings.

Local Open Scope string_scope.
Local Open Scope Z_scope.

(** ** Values shared by both engines *)

(** [zint.Uint128] is [[2]uint64]; its zero value is the pair of zeros. *)
Definition Uint128 : Type := (Z * Z)%type.
Definition Uint128_zero : Uint128 := (0, 0).

(** [const ExportVersion = "1"] *)
Definition ExportVersion : string := "1".

(** One CSV record, as [encoding/csv] hands it over: [[]string]. *)
Abbreviation Line := (list string).

(** [zvalidate.Validator]: [Errors map[string][]string]. *)
Abbreviation Validator := (gmap string (list string)).

(** The [error] values that travel through export.go. *)
Inductive error : Type :=
  | WrongNumberOfFields (got want : nat)   (* fmt.Errorf in ExportRow.Read *)
  | ValidationError (v : Validator)        (* v.ErrorOrNil() *)
  | WrongVersion (found expected : string) (* errors.Errorf in Import *)
  | EOF                                    (* io.EOF *)
  | LibraryError (msg : string).           (* any error made by a library call *)

(** [fmt.Sprintf("%t", b)] *)
Definition Sprintf_t (b : bool) : string := if b then "true" else "false".

(** [fmt.Sprintf("%d", n)] and [strconv.FormatInt(n, 10)] *)
Definition FormatInt (n : Z) : string := NilZero.string_of_int (Z.to_int n).

(** ** Library calls of the codec

    export.go calls into zvalidate, zdb, zfloat, uuid and time.  Their
    sources are not part of this repository, so each call is a field of
    the class: the embedding of export.go is parametric in them.  A
    validation method reports the message it appends to the validator, if
    any, next to the value it returns. *)
Class Externals : Type := {
  Time : Type;                                    (* time.Time *)
  Time_zero : Time;                               (* time.Time{} *)
  Time_Format : Time -> string;                   (* t.Format(time.RFC3339) *)
  Float : Type;                                   (* float64 *)
  zfloat_Join : list Float -> string;             (* zfloat.Join(l, ",") *)
  Floats_UnmarshalText : string -> list Float * option string;
                                                  (* hit.Size.UnmarshalText *)
  uuid_String : Uint128 -> string;                (* Session.Bytes() as uuid.String() *)
  zv_Required : string -> option string;          (* v.Required *)
  zv_Boolean : string -> bool * option string;    (* v.Boolean *)
  zv_Integer : string -> Z * option string;       (* v.Integer *)
  zv_Date : string -> Time * option string;       (* v.Date(_, _, time.RFC3339) *)
  zv_Include : string -> list string -> option string;  (* v.Include *)
  RefSchemeHTTP : string;
  RefSchemeOther : string;
  RefSchemeGenerated : string;
  RefSchemeCampaign : string
}.

(** ** The validator, threaded through [ExportRow.Hit] *)

Definition zvalidate_New : Validator := ∅.

(** [v.Errors[key] = append(v.Errors[key], value)] *)
Definition Append (key value : string) (v : Validator) : Validator :=
  <[key := (default [] (v !! key) ++ [value])%list]> v.

(** [len(v.Errors) > 0] *)
Definition HasErrors (v : Validator) : bool := negb (Nat.eqb (size v) 0).

Definition ErrorOrNil (v : Validator) : option error :=
  if HasErrors v then Some (ValidationError v) else None.

(** State monad over the validator: [v := zvalidate.New()] followed by
    a sequence of method calls on [v]. *)
Definition V (A : Type) : Type := Validator -> A * Validator.

#[export] Instance V_ret : MRet V := λ A a v, (a, v).
#[export] Instance V_bind : MBind V :=
  λ A B f m v, let '(a, v') := m v in f a v'.

Definition report (key : string) (fault : option string) : V unit :=
  λ v, (tt, from_option (λ msg, Append key msg v) v fault).

Section validator_methods.
Context `{Externals}.

Definition Required (key value : string) : V unit :=
  report key (zv_Required value).

Definition Boolean (key value : string) : V bool :=
  let '(b, fault) := zv_Boolean value in
  _ ← report key fault; mret b.

Definition Integer (key value : string) : V Z :=
  let '(n, fault) := zv_Integer value in
  _ ← report key fault; mret n.

Definition Date (key value : string) : V Time :=
  let '(t, fault) := zv_Date value in
  _ ← report key fault; mret t.

Definition Include (key value : string) (include : list string) : V unit :=
  report key (zv_Include value include).
End validator_methods.

(** ** Event records

    [Hit] is declared in hit.go; these are the fields export.go reads or
    writes, and [ID], on which [Hits.List] paginates. *)
Module Hit.
Record t `{Externals} : Type := mk {
  ID : Z;
  Site : Z;
  Session : Uint128;
  OldSession : option Z;
  Path : string;
  Title : string;
  Event : bool;
  Bot : Z;
  Ref : string;
  RefScheme : option string;
  Browser : string;
  Size : list Float;
  Location : string;
  FirstVisit : bool;
  CreatedAt : Time
}.
End Hit.

Abbreviation Hits := (list Hit.t).

(** ** The row codec *)
Module ExportRow.
(** [type ExportRow struct], fields in order. *)
Record t : Type := mk {
  Path : string;
  Title : string;
  Event : string;
  Bot : string;
  Session : string;
  FirstVisit : string;
  Ref : string;
  RefScheme : string;
  Browser : string;
  Size : string;
  Location : string;
  CreatedAt : string
}.

(** [values.NumField()] *)
Definition NumField : nat := 12.

(** [func (row *ExportRow) Read(line []string) error]: every field is a
    string, so field [i] receives [line[i]]. *)
Definition Read (line : Line) : t + error :=
  match line with
  | [f0; f1; f2; f3; f4; f5; f6; f7; f8; f9; f10; f11] =>
      inl (mk f0 f1 f2 f3 f4 f5 f6 f7 f8 f9 f10 f11)
  | _ => inr (WrongNumberOfFields (length line) NumField)
  end.

Section decode.
Context `{Externals}.

(** The validation calls of [Hit], in source order; the result is the
    record as it stands before the Size column is looked at. *)
Definition validate (row : t) (siteID : Z) : V Hit.t :=
  _ ← Required "path" (Path row);
  event ← Boolean "event" (Event row);
  bot ← Integer "bot" (Bot row);
  firstVisit ← Boolean "firstVisit" (FirstVisit row);
  createdAt ← Date "createdAt" (CreatedAt row);
  refScheme ←
    (if decide (RefScheme row ≠ "") then
       _ ← Include "refScheme" (RefScheme row)
             [RefSchemeHTTP; RefSchemeOther; RefSchemeGenerated;
              RefSchemeCampaign];
       mret (Some (RefScheme row))
     else mret None);
  mret {| Hit.ID := 0; Hit.Site := siteID;
          Hit.Session := Uint128_zero; Hit.OldSession := None;
          Hit.Path := Path row; Hit.Title := Title row;
          Hit.Event := event; Hit.Bot := bot;
          Hit.Ref := Ref row; Hit.RefScheme := refScheme;
          Hit.Browser := Browser row; Hit.Size := [];
          Hit.Location := Location row;
          Hit.FirstVisit := firstVisit; Hit.CreatedAt := createdAt |}.

Definition with_Size (hit : Hit.t) (size : list Float) : Hit.t :=
  {| Hit.ID := Hit.ID hit; Hit.Site := Hit.Site hit;
     Hit.Session := Hit.Session hit; Hit.OldSession := Hit.OldSession hit;
     Hit.Path := Hit.Path hit; Hit.Title := Hit.Title hit;
     Hit.Event := Hit.Event hit; Hit.Bot := Hit.Bot hit;
     Hit.Ref := Hit.Ref hit; Hit.RefScheme := Hit.RefScheme hit;
     Hit.Browser := Hit.Browser hit; Hit.Size := size;
     Hit.Location := Hit.Location hit;
     Hit.FirstVisit := Hit.FirstVisit hit;
     Hit.CreatedAt := Hit.CreatedAt hit |}.

(** [func (row ExportRow) Hit(siteID int64) (Hit, error)] *)
Definition Hit (row : t) (siteID : Z) : Hit.t * option error :=
  let '(hit, v) := validate row siteID zvalidate_New in
  if decide (Size row ≠ "") then
    let '(size, err) := Floats_UnmarshalText (Size row) in
    (with_Size hit size, LibraryError <$> err)
  else (hit, ErrorOrNil v).
End decode.
End ExportRow.

(** The row [Export.Run] writes for one hit (the argument of [c.Write]
    inside the [range hits] loop). *)
Definition encode `{Externals} (hit : Hit.t) : Line :=
  let s := match Hit.OldSession hit with
           | Some old => FormatInt old
           | None => uuid_String (Hit.Session hit)
           end in
  let rs := match Hit.RefScheme hit with
            | Some scheme => scheme
            | None => ""
            end in
  [Hit.Path hit; Hit.Title hit; Sprintf_t (Hit.Event hit);
   FormatInt (Hit.Bot hit); s; Sprintf_t (Hit.FirstVisit hit);
   Hit.Ref hit; rs; Hit.Browser hit; zfloat_Join (Hit.Size hit);
   Hit.Location hit; Time_Format (Hit.CreatedAt hit)].

(** The header [Export.Run] writes first. *)
Definition header : Line :=
  [ExportVersion +:+ "Path"; "Title"; "Event"; "Bot"; "Session";
   "FirstVisit"; "Referrer"; "Referrer scheme"; "Browser"; "Screen size";
   "Location"; "Date"].

(** ** The export engine *)

(** [type Export struct]: the job as [Export.Run] holds it in memory
    ([Export] is reserved in Rocq, hence [ExportJob]).  An [*int64],
    [*int] or [*string] field is an [option]. *)
Module ExportJob.
Record t `{Externals} : Type := mk {
  ID : Z;
  SiteID : Z;
  StartFromHitID : Z;
  LastHitID : option Z;
  Path : string;
  CreatedAt : Time;
  FinishedAt : option Time;
  NumRows : option Z;
  Size : option string;
  Hash : option string;
  Error : option string
}.

Section setters.
Context `{Externals}.

Definition set_LastHitID (x : option Z) (e : t) : t :=
  mk _ (ID e) (SiteID e) (StartFromHitID e) x (Path e) (CreatedAt e)
     (FinishedAt e) (NumRows e) (Size e) (Hash e) (Error e).
Definition set_NumRows (x : option Z) (e : t) : t :=
  mk _ (ID e) (SiteID e) (StartFromHitID e) (LastHitID e) (Path e)
     (CreatedAt e) (FinishedAt e) x (Size e) (Hash e) (Error e).
Definition set_Size (x : option string) (e : t) : t :=
  mk _ (ID e) (SiteID e) (StartFromHitID e) (LastHitID e) (Path e)
     (CreatedAt e) (FinishedAt e) (NumRows e) x (Hash e) (Error e).
Definition set_Hash (x : option string) (e : t) : t :=
  mk _ (ID e) (SiteID e) (StartFromHitID e) (LastHitID e) (Path e)
     (CreatedAt e) (FinishedAt e) (NumRows e) (Size e) x (Error e).
End setters.
End ExportJob.

(** The two statements [Export.Run] executes on the [exports] table.
    [Run] only logs an error of [ExecContext], so the table is modelled
    by the statements executed; the error written is kept as the [error]
    value whose message [exportErr.Error()] is. *)
Inductive Stmt : Type :=
  | UpdateError (err : error) (export_id : Z)
      (* update exports set error=$1 where export_id=$2 *)
  | UpdateFinished (finished_at : string) (num_rows : option Z)
      (size hash : option string) (last_hit_id : option Z) (export_id : Z).
      (* update exports set finished_at=$1, num_rows=$2, size=$3, hash=$4,
         last_hit_id=$5 where export_id=$6 *)

(** What [Export.Run] does to the world, in the order it does it. *)
Inductive Effect : Type :=
  | CsvWrite (row : Line)            (* c.Write(row) *)
  | ListHits (limit after : Z)       (* hits.List(ctx, limit, after) *)
  | Checkpoint (last : Z)            (* e.LastHitID = &last *)
  | CsvFlush                         (* c.Flush() *)
  | LogError (err : error)           (* l.Error(err), zlog.Error(err) *)
  | Exec (s : Stmt)                  (* zdb.MustGet(ctx).ExecContext *)
  | GzClose                          (* gzfp.Close() *)
  | FpSync                           (* fp.Sync() *)
  | FpStat                           (* fp.Stat() *)
  | FpClose                          (* fp.Close() *)
  | Remove                           (* os.Remove(fp.Name()) *)
  | HashFile                         (* zcrypto.HashFile(e.Path) *)
  | MailExportDone.                  (* blackmail.Send("GoatCounter export ready") *)

(** The row of table [exports] that belongs to one job: the columns
    [Export.Run] writes. *)
Record ExportsRow : Type := mkExportsRow {
  col_export_id : Z;
  col_finished_at : option string;
  col_num_rows : option Z;
  col_size : option string;
  col_hash : option string;
  col_last_hit_id : option Z;
  col_error : option error
}.

Definition apply_stmt (r : ExportsRow) (s : Stmt) : ExportsRow :=
  match s with
  | UpdateError err id =>
      if decide (id = col_export_id r) then
        mkExportsRow (col_export_id r) (col_finished_at r) (col_num_rows r) (col_size r)
                     (col_hash r) (col_last_hit_id r) (Some err)
      else r
  | UpdateFinished now n sz h last id =>
      if decide (id = col_export_id r) then
        mkExportsRow (col_export_id r) (Some now) n sz h last (col_error r)
      else r
  end.

Definition statements (trace : list Effect) : list Stmt :=
  omap (λ ev, match ev with Exec s => Some s | _ => None end) trace.

(** The job row after the statements of a run, from the row as
    [Export.Create] inserted it. *)
Definition row_after (trace : list Effect) (r : ExportsRow) : ExportsRow :=
  foldl apply_stmt r (statements trace).

Definition created_row (id : Z) : ExportsRow :=
  mkExportsRow id None None None None None None.

Definition is_Remove (ev : Effect) : bool :=
  match ev with Remove => true | _ => false end.

(** Whether the run deleted the artifact file. *)
Definition artifact_removed (trace : list Effect) : bool :=
  existsb is_Remove trace.

(** The collaborators of one export run.  Each field is the result the
    run gets from the call named in the comment; [Hits_List n] and
    [csv_Error n] are the results in loop iteration [n] (from 0). *)
Record ExportWorld `{Externals} : Type := mkExportWorld {
  Hits_List : nat -> Z -> Z -> Hits * Z * option error;
                                   (* last, err = hits.List(ctx, limit, after) *)
  csv_Error : nat -> option error; (* c.Flush(); c.Error() *)
  gzfp_Close : option error;       (* gzfp.Close() *)
  fp_Sync : option error;          (* fp.Sync() *)
  fp_Stat : option Z;              (* stat.Size() when fp.Stat() has no error *)
  fp_Close : option error;         (* fp.Close() *)
  zcrypto_HashFile : string * option error;  (* zcrypto.HashFile(e.Path) *)
  Now_Format : string;             (* Now().Format(zdb.Date) *)
  Sprintf_MiB : Z -> string        (* fmt.Sprintf("%.1f", float64(n)/1024/1024) *)
}.

(** The variables of [Export.Run]: the job [e], [exportErr], the rows
    held by the csv.Writer [c], the rows [c] has flushed down into the
    gzip stream, and the effects so far (oldest first). *)
Record RunState `{Externals} : Type := mkRunState {
  job : ExportJob.t;
  exportErr : option error;
  pending : list Line;
  flushed : list Line;
  trace : list Effect
}.

Section export_run.
Context `{Externals} (w : ExportWorld).

(** The statements of [Run] before the [for]. *)
Definition start (e : ExportJob.t) : RunState :=
  let e := ExportJob.set_LastHitID (Some (ExportJob.StartFromHitID e)) e in
  let e := ExportJob.set_NumRows (Some 0) e in
  mkRunState _ e None [header] [] [CsvWrite header].

(** One pass through the body of the [for]; the boolean tells whether
    the loop goes round again ([false] is [break]).  [*e.LastHitID] is
    never a nil dereference: the field is set before the loop.  A flush
    that reports an error leaves the rows counted as not flushed. *)
Definition batch (n : nat) (st : RunState) : RunState * bool :=
  let e := job st in
  let after := default 0 (ExportJob.LastHitID e) in
  let '(hits, last, err) := Hits_List w n 5000 after in
  let e := ExportJob.set_LastHitID (Some last) e in
  let tr := (trace st ++ [ListHits 5000 after; Checkpoint last])%list in
  if decide (length hits = 0%nat) then
    (mkRunState _ e err (pending st) (flushed st) tr, false)
  else if err is Some _ then
    (mkRunState _ e err (pending st) (flushed st) tr, false)
  else
    let e := ExportJob.set_NumRows
               (Some (default 0 (ExportJob.NumRows e) + Z.of_nat (length hits))) e in
    let rows := encode <$> hits in
    let held := (pending st ++ rows)%list in
    let tr := (tr ++ (CsvWrite <$> rows) ++ [CsvFlush])%list in
    match csv_Error w n with
    | Some err' => (mkRunState _ e (Some err') held (flushed st) tr, false)
    | None => (mkRunState _ e None [] (flushed st ++ held)%list tr, true)
    end.

(** The [for] loop, from iteration [n], for at most [fuel] iterations. *)
Fixpoint loop (fuel n : nat) (st : RunState) : option RunState :=
  match fuel with
  | O => None
  | S fuel' =>
      let '(st', again) := batch n st in
      if again then loop fuel' (S n) st' else Some st'
  end.

(** [defer fp.Close()], [defer gzfp.Close()], run last-in first-out. *)
Definition deferred : list Effect := [GzClose; FpClose].

(** The statements of [Run] after the [for]. *)
Definition finish (mailUser : bool) (st : RunState) : RunState :=
  let e := job st in
  let done e tr :=
    mkRunState _ e (exportErr st) (pending st) (flushed st)
               (trace st ++ tr ++ deferred)%list in
  match exportErr st with
  | Some err =>
      done e [LogError err; Exec (UpdateError err (ExportJob.ID e));
              GzClose; FpClose; Remove]
  | None =>
      match gzfp_Close w with
      | Some err => done e [GzClose; LogError err]
      | None =>
      match fp_Sync w with
      | Some err => done e [GzClose; FpSync; LogError err]
      | None =>
      let size := match fp_Stat w with
                  | Some n => Sprintf_MiB w n
                  | None => "0"
                  end in
      let e := ExportJob.set_Size (Some size) e in
      match fp_Close w with
      | Some err => done e [GzClose; FpSync; FpStat; FpClose; LogError err]
      | None =>
      let '(h, err) := zcrypto_HashFile w in
      let e := ExportJob.set_Hash (Some h) e in
      match err with
      | Some err =>
          done e [GzClose; FpSync; FpStat; FpClose; HashFile; LogError err]
      | None =>
          done e ([GzClose; FpSync; FpStat; FpClose; HashFile;
                   Exec (UpdateFinished (Now_Format w) (ExportJob.NumRows e)
                           (ExportJob.Size e) (ExportJob.Hash e)
                           (ExportJob.LastHitID e) (ExportJob.ID e))]
                  ++ (if mailUser then [MailExportDone] else []))%list
      end end end end
  end.

(** [func (e *Export) Run(ctx, fp, mailUser)], given enough fuel for
    its loop. *)
Definition Run (fuel : nat) (e : ExportJob.t) (mailUser : bool)
  : option RunState :=
  finish mailUser <$> loop fuel 0 (start e).
End export_run.

(** Modelled from the spec: [Hits.List] (hit.go is not under src/), the
    Record Store Adapter read contract "listAfter(afterID, limit) ->
    (records, newLastID, err), strictly ascending by identity, at most
    limit records, empty result signals end of data".  [store] is the
    site's hits in ascending identity; [newLastID] is the identity of the
    last record returned, and [afterID] itself when none is returned. *)
Definition listAfter `{Externals} (store : Hits) (limit after : Z)
  : Hits * Z * option error :=
  let hits := take (Z.to_nat limit)
                (filter (λ h, after < Hit.ID h) store) in
  (hits, default after (Hit.ID <$> last hits), None).

(** A world in which the store answers every read and every file and
    database call succeeds. *)
Definition healthy_world `{Externals} (store : Hits) (bytes : Z)
    (digest now : string) (mib : Z -> string) : ExportWorld :=
  mkExportWorld _ (λ _, listAfter store) (λ _, None) None None (Some bytes)
                None (digest, None) now mib.

(** ** The import engine *)

(** [errors.Group], as [errors.NewGroup(50)] makes it: the errors kept
    (at most [maxSize], in arrival order) and the count of all of them. *)
Record Group : Type := mkGroup {
  maxSize : nat;
  kept : list error;
  nerrs : nat
}.

Definition NewGroup (maxSize : nat) : Group := mkGroup maxSize [] 0.

(** [errs.Append(err)]: [false] for a nil error, which is not recorded. *)
Definition Group_Append (err : option error) (g : Group) : bool * Group :=
  match err with
  | None => (false, g)
  | Some e =>
      (true,
       mkGroup (maxSize g)
               (if (length (kept g) <? maxSize g)%nat
                then (kept g ++ [e])%list else kept g)
               (S (nerrs g)))
  end.

(** [errs.Len()]: the number of errors kept, which the size the group
    was made with bounds; the count of all errors appended is [nerrs]. *)
Definition Group_Len (g : Group) : nat := length (kept g).

(** Go's [s[:hi]] on a string: a run-time panic when [hi > len(s)]. *)
Definition slice_to (s : string) (hi : nat) : option string :=
  if (hi <=? Stdlib.Strings.String.length s)%nat
  then Some (Stdlib.Strings.String.substring 0 hi s) else None.

(** [strings.HasPrefix(s, prefix)] *)
Definition HasPrefix (s prefix : string) : bool :=
  Stdlib.Strings.String.prefix prefix s.

(** The mails [Import] sends. *)
Inductive Mail : Type :=
  | ImportErrorMail (report : error)      (* importError(l, user, report) *)
  | ImportDoneMail (rows : nat) (errors : Group).
                                          (* "GoatCounter import ready" *)

(** What one [c.Read()] returns before the end of the stream: a record,
    or an error other than [io.EOF].  The stream is the list of these
    results; [io.EOF] follows the last of them. *)
Definition ReadResult : Type := (Line + error)%type.

(** The collaborators of one import: [SessionID k] is what the [k]-th
    call of [Memstore.SessionID()] returns, [DeleteAll] the result of
    [site.DeleteAll(ctx)]. *)
Record ImportWorld : Type := mkImportWorld {
  SessionID : nat -> Uint128;
  DeleteAll : option error
}.

(** The variables of [Import] and the state it shares with the process:
    the hits handed to [Memstore.Append] (oldest first), the number of
    session identities minted, whether the site was wiped, and the mails
    sent. *)
Record ImportState `{Externals} : Type := mkImportState {
  memstore : Hits;
  minted : nat;
  sessions : gmap string Uint128;
  n : nat;
  errs : Group;
  wiped : bool;
  mails : list Mail
}.

(** How a call of [Import] ends: it returns, or it panics. *)
Inductive Outcome `{Externals} : Type :=
  | Returned (st : ImportState)
  | Panicked (st : ImportState).

Section import_run.
Context `{Externals} (w : ImportWorld) (siteID : Z).

Definition with_Session (hit : Hit.t) (s : Uint128) : Hit.t :=
  {| Hit.ID := Hit.ID hit; Hit.Site := Hit.Site hit;
     Hit.Session := s; Hit.OldSession := Hit.OldSession hit;
     Hit.Path := Hit.Path hit; Hit.Title := Hit.Title hit;
     Hit.Event := Hit.Event hit; Hit.Bot := Hit.Bot hit;
     Hit.Ref := Hit.Ref hit; Hit.RefScheme := Hit.RefScheme hit;
     Hit.Browser := Hit.Browser hit; Hit.Size := Hit.Size hit;
     Hit.Location := Hit.Location hit;
     Hit.FirstVisit := Hit.FirstVisit hit;
     Hit.CreatedAt := Hit.CreatedAt hit |}.

Definition skip (err : error) (st : ImportState) : ImportState :=
  mkImportState _ (memstore st) (minted st) (sessions st) (n st)
                (Group_Append (Some err) (errs st)).2 (wiped st) (mails st).

(** The part of the loop body after [row.Hit] returned no error. *)
Definition ingest (row : ExportRow.t) (hit : Hit.t) (st : ImportState)
  : ImportState :=
  let s := sessions st !! ExportRow.Session row in
  let '(sessions', minted') :=
    match s with
    | Some _ => (sessions st, minted st)
    | None => (<[ExportRow.Session row := SessionID w (minted st)]> (sessions st),
               S (minted st))
    end in
  let hit := with_Session hit (default Uint128_zero s) in
  mkImportState _ (memstore st ++ [hit])%list minted' sessions' (S (n st))
                (errs st) (wiped st) (mails st).

(** One pass through the body of the [for], for one result of
    [c.Read()]. *)
Definition import_line (r : ReadResult) (st : ImportState) : ImportState :=
  match r with
  | inr err => skip err st
  | inl line =>
      match ExportRow.Read line with
      | inr err => skip err st
      | inl row =>
          match ExportRow.Hit row siteID with
          | (_, Some err) => skip err st
          | (hit, None) => ingest row hit st
          end
      end
  end.

(** The [for] loop over the results of [c.Read()], for a reader that
    gets to the end of its input: [rows] are the results of the calls
    in order, and [io.EOF], which also follows the last of them, ends
    the loop.  Only [io.EOF] ends the loop of the source; a reader that
    never returns it is outside this definition, and is the subject of
    [read_loop] below. *)
Fixpoint import_rows (rows : list ReadResult) (st : ImportState)
  : ImportState :=
  match rows with
  | [] => st
  | inr EOF :: _ => st
  | r :: rows' => import_rows rows' (import_line r st)
  end.

Definition importError (report : error) (st : ImportState) : ImportState :=
  mkImportState _ (memstore st) (minted st) (sessions st) (n st) (errs st)
                (wiped st) (mails st ++ [ImportErrorMail report])%list.

(** [site.DeleteAll(ctx)] went through: the stored data of the site is
    gone (the hits queued in the memstore are not part of it). *)
Definition set_wiped (st : ImportState) : ImportState :=
  mkImportState _ (memstore st) (minted st) (sessions st) (n st) (errs st)
                true (mails st).

(** The state [Import] starts from: the memstore as the process has
    it and the local variables of the function. *)
Definition import_start (stored : Hits) (minted : nat) : ImportState :=
  mkImportState _ stored minted ∅ 0 (NewGroup 50) false [].

(** The end of [Import]: the mail, when [email] is set. *)
Definition import_done (email : bool) (st : ImportState) : ImportState :=
  if email then
    mkImportState _ (memstore st) (minted st) (sessions st) (n st)
                  (errs st) (wiped st)
                  (mails st ++ [ImportDoneMail (n st) (errs st)])%list
  else st.

(** [func Import(ctx, fp, replace, email)] on a reader that gets to
    the end of its input; [stream] is what [csv.NewReader(fp)] reads
    before [io.EOF], [st] the state at the call. *)
Definition Import (stream : list ReadResult) (replace email : bool)
    (st : ImportState) : Outcome :=
  match stream with
  | [] => Returned (importError EOF st)
  | inr err :: _ => Returned (importError err st)
  | inl header :: rows =>
      let mismatch :=
        match header with
        | [] => true                              (* len(header) == 0 *)
        | cell :: _ => negb (HasPrefix cell ExportVersion)
        end in
      if mismatch then
        match header with
        | [] => Panicked st                       (* header[0] *)
        | cell :: _ =>
            match slice_to cell 1 with
            | None => Panicked st                 (* header[0][:1] *)
            | Some found =>
                Returned (importError (WrongVersion found ExportVersion) st)
            end
        end
      else
        match (if replace then DeleteAll w else None) with
        | Some err => Returned (importError err st)
        | None =>
            let st := if replace then set_wiped st else st in
            Returned (import_done email (import_rows rows st))
        end
  end.
End import_run.

(** ** A reference instance of the library calls *)

(** Modelled from the spec: the library calls of the codec, whose sources
    are outside this repository, as section 4.2 describes them ("path
    required and non-empty; boolean fields parsed strictly; bot field
    parsed as integer; referrer-scheme, if non-empty, must be a member of
    the fixed enumeration; timestamp parsed with the same fixed wire
    format").  Timestamps are UTC with whole seconds and are represented
    by their wire form; screen sizes are whole numbers.  The instance is
    narrower than the libraries it stands for: [parse_time] accepts the
    one shape [dddd-dd-ddTdd:dd:ddZ], without a check of the ranges of
    month, day and time and without zone offsets, and [unmarshal] splits
    at every comma and takes any number of whole numbers.  It is used
    only to run the embedding on concrete rows; the general theorems
    are stated for an arbitrary instance of [Externals]. *)
Module Reference.
Definition is_digit (c : ascii) : bool :=
  ((48 <=? nat_of_ascii c) && (nat_of_ascii c <=? 57))%nat.

(** [shape] is matched character by character; a [d] in it stands for
    any digit. *)
Fixpoint has_shape (shape s : string) : bool :=
  match shape, s with
  | EmptyString, EmptyString => true
  | String p shape', String c s' =>
      (if Ascii.eqb p "d" then is_digit c else Ascii.eqb p c)
      && has_shape shape' s'
  | _, _ => false
  end.

Definition time_zero : string := "0001-01-01T00:00:00Z".

Definition parse_time (s : string) : string * option string :=
  if has_shape "dddd-dd-ddTdd:dd:ddZ" s then (s, None)
  else (time_zero, Some "must be a date as 2006-01-02T15:04:05Z07:00").

Definition parse_int (s : string) : option Z :=
  Z.of_int <$> NilZero.int_of_string s.

Fixpoint split_on (sep : ascii) (s : string) : list string :=
  match s with
  | EmptyString => [EmptyString]
  | String c s' =>
      if Ascii.eqb c sep then EmptyString :: split_on sep s'
      else match split_on sep s' with
           | x :: xs => String c x :: xs
           | [] => [String c EmptyString]
           end
  end.

Definition join (l : list Z) : string :=
  Stdlib.Strings.String.concat "," (FormatInt <$> l).

Definition unmarshal (s : string) : list Z * option string :=
  match mapM parse_int (split_on "," s) with
  | Some l => (l, None)
  | None => ([], Some "invalid syntax")
  end.

Definition hex_digit (d : Z) : ascii :=
  ascii_of_nat (Z.to_nat (if d <? 10 then 48 + d else 87 + d)).

Fixpoint hex (digits : nat) (v : Z) : string :=
  match digits with
  | O => EmptyString
  | S k => hex k (v / 16) +:+ String (hex_digit (v mod 16)) EmptyString
  end.

Definition uuid (u : Uint128) : string :=
  let h := hex 16 u.1 in
  let l := hex 16 u.2 in
  let sub := Stdlib.Strings.String.substring in
  sub 0%nat 8%nat h +:+ "-" +:+ sub 8%nat 4%nat h +:+ "-" +:+
  sub 12%nat 4%nat h +:+ "-" +:+ sub 0%nat 4%nat l +:+ "-" +:+
  sub 4%nat 12%nat l.

Definition required (s : string) : option string :=
  if decide (s = "") then Some "must be set" else None.

Definition boolean (s : string) : bool * option string :=
  if decide (s = "true") then (true, None)
  else if decide (s = "false") then (false, None)
  else (false, Some "must be a boolean").

Definition integer (s : string) : Z * option string :=
  match parse_int s with
  | Some n => (n, None)
  | None => (0, Some "must be a whole number")
  end.

Definition include (s : string) (allowed : list string) : option string :=
  if decide (s ∈ allowed) then None else Some "must be one of the list".

Definition externals : Externals :=
  {| Time := string; Time_zero := time_zero; Time_Format := id;
     Float := Z; zfloat_Join := join; Floats_UnmarshalText := unmarshal;
     uuid_String := uuid;
     zv_Required := required; zv_Boolean := boolean;
     zv_Integer := integer; zv_Date := parse_time; zv_Include := include;
     RefSchemeHTTP := "h"; RefSchemeOther := "o";
     RefSchemeGenerated := "g"; RefSchemeCampaign := "c" |}.
End Reference.

(** A page view, for running the embedding. *)
Definition sample_hit (id : Z) (session : Uint128) (path : string)
  : @Hit.t Reference.externals :=
  @Hit.mk Reference.externals id 1 session None path "Home" false 0
          "https://example.com" (Some "h") "Firefox 77" [1920; 1080; 1] "NL"
          true "2020-06-18T12:00:00Z".

(** A row of an artifact, for running the embedding: as a decoded
    [ExportRow] and as the CSV record it is read from. *)
Definition sample_row (path event session size : string) : ExportRow.t :=
  ExportRow.mk path "Home" event "0" session "true" "https://example.com"
               "h" "Firefox 77" size "NL" "2020-06-18T12:00:00Z".

Definition sample_line (path event session size : string) : Line :=
  [path; "Home"; event; "0"; session; "true"; "https://example.com"; "h";
   "Firefox 77"; size; "NL"; "2020-06-18T12:00:00Z"].

(** ** Vocabulary of the statements *)

Section codec_vocabulary.
Context `{Externals}.

(** The faults the validation calls of [ExportRow.Hit] report for a
    row, with their keys, in source order. *)
Definition faults (row : ExportRow.t) : list (string * option string) :=
  [("path", zv_Required (ExportRow.Path row));
   ("event", (zv_Boolean (ExportRow.Event row)).2);
   ("bot", (zv_Integer (ExportRow.Bot row)).2);
   ("firstVisit", (zv_Boolean (ExportRow.FirstVisit row)).2);
   ("createdAt", (zv_Date (ExportRow.CreatedAt row)).2);
   ("refScheme",
    if decide (ExportRow.RefScheme row ≠ "") then
      zv_Include (ExportRow.RefScheme row)
        [RefSchemeHTTP; RefSchemeOther; RefSchemeGenerated;
         RefSchemeCampaign]
    else None)].

Definition report_all (fs : list (string * option string)) (v : Validator)
  : Validator :=
  foldl (λ v kf, (report kf.1 kf.2 v).2) v fs.

(** The record the validation calls fill in for a row. *)
Definition decoded (row : ExportRow.t) (siteID : Z) : Hit.t :=
  {| Hit.ID := 0; Hit.Site := siteID;
     Hit.Session := Uint128_zero; Hit.OldSession := None;
     Hit.Path := ExportRow.Path row; Hit.Title := ExportRow.Title row;
     Hit.Event := (zv_Boolean (ExportRow.Event row)).1;
     Hit.Bot := (zv_Integer (ExportRow.Bot row)).1;
     Hit.Ref := ExportRow.Ref row;
     Hit.RefScheme := if decide (ExportRow.RefScheme row ≠ "")
                      then Some (ExportRow.RefScheme row) else None;
     Hit.Browser := ExportRow.Browser row; Hit.Size := [];
     Hit.Location := ExportRow.Location row;
     Hit.FirstVisit := (zv_Boolean (ExportRow.FirstVisit row)).1;
     Hit.CreatedAt := (zv_Date (ExportRow.CreatedAt row)).1 |}.

(** A required-field fault for the path: the validator is returned as
    the error and holds, under key "path", the message of
    [v.Required]. *)
Definition required_path_fault (msg : string) (err : option error) : Prop :=
  ∃ v, err = Some (ValidationError v) ∧ v !! "path" = Some [msg].

(** Decoding the row a record was encoded to. *)
Definition decode_encoded (hit : Hit.t) (siteID : Z)
  : option (Hit.t * option error) :=
  match ExportRow.Read (encode hit) with
  | inl row => Some (ExportRow.Hit row siteID)
  | inr _ => None
  end.

(** A record valid under the constraints of the codec: the path passes
    [v.Required]; the rendered flags, bot code and timestamp are read
    back unchanged by [v.Boolean], [v.Integer] and [v.Date]; a referrer
    scheme, when present, is non-empty and passes [v.Include] against
    the enumeration; a non-empty rendering of the screen size is read
    back by [UnmarshalText], and only the empty list renders empty. *)
Definition codec_valid (hit : Hit.t) : Prop :=
  Hit.Path hit ≠ ""
  ∧ zv_Required (Hit.Path hit) = None
  ∧ zv_Boolean (Sprintf_t (Hit.Event hit)) = (Hit.Event hit, None)
  ∧ zv_Integer (FormatInt (Hit.Bot hit)) = (Hit.Bot hit, None)
  ∧ zv_Boolean (Sprintf_t (Hit.FirstVisit hit)) = (Hit.FirstVisit hit, None)
  ∧ zv_Date (Time_Format (Hit.CreatedAt hit)) = (Hit.CreatedAt hit, None)
  ∧ match Hit.RefScheme hit with
    | None => True
    | Some scheme =>
        scheme ≠ ""
        ∧ scheme ∈ [RefSchemeHTTP; RefSchemeOther; RefSchemeGenerated;
                    RefSchemeCampaign]
        ∧ zv_Include scheme [RefSchemeHTTP; RefSchemeOther;
                             RefSchemeGenerated; RefSchemeCampaign] = None
    end
  ∧ (if decide (zfloat_Join (Hit.Size hit) ≠ "")
     then Floats_UnmarshalText (zfloat_Join (Hit.Size hit))
          = (Hit.Size hit, None)
     else Hit.Size hit = []).

(** What decoding restores of a record: everything but its identity,
    its site (the importing site takes its place) and its session,
    which is left zero for [Import] to remap. *)
Definition restored (hit : Hit.t) (siteID : Z) : Hit.t :=
  {| Hit.ID := 0; Hit.Site := siteID;
     Hit.Session := Uint128_zero; Hit.OldSession := None;
     Hit.Path := Hit.Path hit; Hit.Title := Hit.Title hit;
     Hit.Event := Hit.Event hit; Hit.Bot := Hit.Bot hit;
     Hit.Ref := Hit.Ref hit; Hit.RefScheme := Hit.RefScheme hit;
     Hit.Browser := Hit.Browser hit; Hit.Size := Hit.Size hit;
     Hit.Location := Hit.Location hit;
     Hit.FirstVisit := Hit.FirstVisit hit;
     Hit.CreatedAt := Hit.CreatedAt hit |}.
End codec_vocabulary.

(** The effects of the data loop: reads, checkpoint updates, row writes
    and flushes. *)
Definition data_effect (ev : Effect) : bool :=
  match ev with
  | CsvWrite _ | ListHits _ _ | Checkpoint _ | CsvFlush => true
  | _ => false
  end.

Definition is_write_or_flush (ev : Effect) : bool :=
  match ev with
  | CsvWrite _ | CsvFlush => true
  | _ => false
  end.

Section export_vocabulary.
Context `{Externals} (w : ExportWorld) (e : ExportJob.t).

(** [*e.LastHitID], the checkpoint the next read starts after. *)
Definition checkpoint (st : RunState) : Z :=
  default 0 (ExportJob.LastHitID (job st)).

(** The state at the top of iteration [n] of the loop of [Run], when
    the loop gets that far. *)
Fixpoint arrives (n : nat) : option RunState :=
  match n with
  | O => Some (start e)
  | S k =>
      match arrives k with
      | Some st =>
          let '(st', again) := batch w k st in
          if again then Some st' else None
      | None => None
      end
  end.

(** What holds at the top of every pass of the loop. *)
Definition at_top (st : RunState) : Prop :=
  exportErr st = None
  ∧ forallb data_effect (trace st) = true
  ∧ ExportJob.ID (job st) = ExportJob.ID e
  ∧ ExportJob.Size (job st) = ExportJob.Size e
  ∧ ExportJob.Hash (job st) = ExportJob.Hash e
  ∧ (pending st = [] ∨ pending st = [header]).
End export_vocabulary.

(** C7 as a property of a trace: wherever the checkpoint is set, the
    rows of the batch it covers have been written and flushed before, so
    that no write or flush comes next. *)
Definition checkpoint_after_flush (tr : list Effect) : Prop :=
  ∀ pre last ev post,
    tr = (pre ++ Checkpoint last :: ev :: post)%list →
    is_write_or_flush ev = false.

(** A world for one batch whose flush fails. *)
Definition full_disk_world (store : list (@Hit.t Reference.externals))
  : @ExportWorld Reference.externals :=
  mkExportWorld Reference.externals (λ _, listAfter store)
    (λ _, Some (LibraryError "write: no space left on device"))
    None None (Some 0) None ("", None) "2020-06-18 12:00:00" (λ _, "0.0").

(** A world whose store cannot be read. *)
Definition broken_store_world : @ExportWorld Reference.externals :=
  mkExportWorld Reference.externals
    (λ _ _ after, ([], after, Some (LibraryError "Hits.List: connection refused")))
    (λ _, None) None None (Some 0) None ("", None) "2020-06-18 12:00:00"
    (λ _, "0.0").

(** A world in which the digest of the finished artifact fails. *)
Definition no_digest_world (store : list (@Hit.t Reference.externals))
  : @ExportWorld Reference.externals :=
  mkExportWorld Reference.externals (λ _, listAfter store) (λ _, None)
    None None (Some 0) None ("", Some (LibraryError "open: permission denied"))
    "2020-06-18 12:00:00" (λ _, "0.0").

(** A job as [Export.Create] makes it. *)
Definition sample_job (id startFrom : Z) : @ExportJob.t Reference.externals :=
  ExportJob.mk Reference.externals id 1 startFrom None
    "/tmp/goatcounter-export-example-20200618T120000Z-0.csv.gz"
    "2020-06-18T12:00:00Z" None None None None None.

(** A memstore that mints the session identities (7, 1), (7, 2), ... and
    a site whose data can be deleted. *)
Definition sample_import_world : ImportWorld :=
  mkImportWorld (λ k, (7, Z.of_nat k + 1)) None.

(** The rows of an artifact with two page views of one session. *)
Definition two_rows_one_session : list ReadResult :=
  [inl (sample_line "/a" "false" "00000000-0000-0001-0000-0000000000ff"
          "1920,1080,1");
   inl (sample_line "/a" "false" "00000000-0000-0001-0000-0000000000ff"
          "1920,1080,1")].



(** ** Vocabulary of the further properties *)

(** The fields of an [ExportRow], in the order of the struct. *)
Definition ExportRow_fields (row : ExportRow.t) : Line :=
  [ExportRow.Path row; ExportRow.Title row; ExportRow.Event row;
   ExportRow.Bot row; ExportRow.Session row; ExportRow.FirstVisit row;
   ExportRow.Ref row; ExportRow.RefScheme row; ExportRow.Browser row;
   ExportRow.Size row; ExportRow.Location row; ExportRow.CreatedAt row].

(** A row with another Session column. *)
Definition ExportRow_with_Session (session : string) (row : ExportRow.t)
  : ExportRow.t :=
  ExportRow.mk (ExportRow.Path row) (ExportRow.Title row)
    (ExportRow.Event row) (ExportRow.Bot row) session
    (ExportRow.FirstVisit row) (ExportRow.Ref row) (ExportRow.RefScheme row)
    (ExportRow.Browser row) (ExportRow.Size row) (ExportRow.Location row)
    (ExportRow.CreatedAt row).

(** A store of three page views, a world around it in which every call
    succeeds, and the state a run over it ends in. *)
Definition sample_store : list (@Hit.t Reference.externals) :=
  [sample_hit 1 (1, 255) "/a"; sample_hit 2 (1, 255) "/b";
   sample_hit 3 (2, 7) "/a"].

Definition sample_world : @ExportWorld Reference.externals :=
  healthy_world sample_store 1024 "digest" "2020-06-18 12:00:00"
    (λ _, "0.0").

Definition sample_result : @RunState Reference.externals :=
  default (start (sample_job 9 0))
    (Run sample_world 2 (sample_job 9 0) true).

(** The state in which a run over a store that cannot be read ends. *)
Definition broken_result : @RunState Reference.externals :=
  default (start (sample_job 9 0))
    (Run broken_store_world 1 (sample_job 9 0) true).

(** A store in strictly ascending identity, as the table of hits is read
    by [Hits.List]. *)
Fixpoint ascending `{Externals} (store : Hits) : Prop :=
  match store with
  | [] => True
  | hit :: rest =>
      Forall (λ hit', Hit.ID hit < Hit.ID hit') rest ∧ ascending rest
  end.

(** The records of a store beyond an identity. *)
Definition records_after `{Externals} (store : Hits) (after : Z) : Hits :=
  filter (λ hit, after < Hit.ID hit) store.

(** The results of [c.Read()] that the loop of [Import] gets to see:
    those before the first [io.EOF]. *)
Fixpoint before_EOF (rows : list ReadResult) : list ReadResult :=
  match rows with
  | [] => []
  | inr EOF :: _ => []
  | r :: rows' => r :: before_EOF rows'
  end.

(** Whether a result of [c.Read()] gets through [row.Read] and
    [row.Hit] without error. *)
Definition decodes `{Externals} (siteID : Z) (r : ReadResult) : bool :=
  match r with
  | inl line =>
      match ExportRow.Read line with
      | inl row =>
          match (ExportRow.Hit row siteID).2 with
          | None => true
          | Some _ => false
          end
      | inr _ => false
      end
  | inr _ => false
  end.

(** The number of rows that decode, and of those that do not. *)
Definition decoded_count `{Externals} (siteID : Z) (rows : list ReadResult)
  : nat :=
  length (List.filter (decodes siteID) (before_EOF rows)).

Definition fault_count `{Externals} (siteID : Z) (rows : list ReadResult)
  : nat :=
  length (List.filter (λ r, negb (decodes siteID r)) (before_EOF rows)).

(** The row [ExportRow.Read] makes of the line a record is encoded to. *)
Definition row_of_hit `{Externals} (hit : Hit.t) : ExportRow.t :=
  ExportRow.mk (Hit.Path hit) (Hit.Title hit) (Sprintf_t (Hit.Event hit))
    (FormatInt (Hit.Bot hit))
    (match Hit.OldSession hit with
     | Some old => FormatInt old
     | None => uuid_String (Hit.Session hit)
     end)
    (Sprintf_t (Hit.FirstVisit hit)) (Hit.Ref hit)
    (match Hit.RefScheme hit with
     | Some scheme => scheme
     | None => ""
     end)
    (Hit.Browser hit) (zfloat_Join (Hit.Size hit)) (Hit.Location hit)
    (Time_Format (Hit.CreatedAt hit)).

(** What the loop of [Import] makes of one result of [c.Read()]: the
    hit of [row.Hit] when neither the reader, [row.Read] nor [row.Hit]
    reports an error, and otherwise the first error reported, which is
    the one appended to [errs]. *)
Definition verdict `{Externals} (siteID : Z) (r : ReadResult)
  : Hit.t + error :=
  match r with
  | inr err => inr err
  | inl line =>
      match ExportRow.Read line with
      | inr err => inr err
      | inl row =>
          match ExportRow.Hit row siteID with
          | (_, Some err) => inr err
          | (hit, None) => inl hit
          end
      end
  end.

(** The hits decoded from the results read before [io.EOF], and the
    errors of the others, both in the order of the input. *)
Definition decoded_hits `{Externals} (siteID : Z) (rows : list ReadResult)
  : Hits :=
  omap (λ r, match verdict siteID r with
             | inl hit => Some hit
             | inr _ => None
             end) (before_EOF rows).

Definition import_faults `{Externals} (siteID : Z) (rows : list ReadResult)
  : list error :=
  omap (λ r, match verdict siteID r with
             | inl _ => None
             | inr err => Some err
             end) (before_EOF rows).

(** [errs.Append] of each error of a list, in order. *)
Definition Group_Append_all (errors : list error) (g : Group) : Group :=
  foldl (λ g err, (Group_Append (Some err) g).2) g errors.

(** A hit without the session [Import] gave it. *)
Definition without_Session `{Externals} (hit : Hit.t) : Hit.t :=
  with_Session hit Uint128_zero.

(** ** The import engine on a reader that may never end *)

(** The csv reader as [Import] calls it: [reader k] is what call [k]
    of [c.Read()] returns, call 0 being the one for the header.
    Nothing makes a reader return [io.EOF]: one that fails with the
    same error on every call (as a reader over a truncated gzip stream
    does) is the function that is constantly that error. *)
Definition Reader : Type := nat -> ReadResult.

Section import_reader.
Context `{Externals} (w : ImportWorld) (siteID : Z) (reader : Reader).

(** The [for] loop of [Import] from call [k] of the reader on: only
    [io.EOF] ends it, so [fuel] bounds the number of passes, and [None]
    is the loop still running when the fuel is spent. *)
Fixpoint read_loop (fuel k : nat) (st : ImportState) : option ImportState :=
  match fuel with
  | O => None
  | S fuel' =>
      match reader k with
      | inr EOF => Some st
      | r => read_loop fuel' (S k) (import_line w siteID r st)
      end
  end.

(** [func Import(ctx, fp, replace, email)] on a reader. *)
Definition Import_from (fuel : nat) (replace email : bool)
    (st : ImportState) : option Outcome :=
  match reader 0%nat with
  | inr err => Some (Returned (importError err st))
  | inl header =>
      let mismatch :=
        match header with
        | [] => true                              (* len(header) == 0 *)
        | cell :: _ => negb (HasPrefix cell ExportVersion)
        end in
      if mismatch then
        match header with
        | [] => Some (Panicked st)                (* header[0] *)
        | cell :: _ =>
            match slice_to cell 1 with
            | None => Some (Panicked st)          (* header[0][:1] *)
            | Some found =>
                Some (Returned
                        (importError (WrongVersion found ExportVersion) st))
            end
        end
      else
        match (if replace then DeleteAll w else None) with
        | Some err => Some (Returned (importError err st))
        | None =>
            let st := if replace then set_wiped st else st in
            (λ st', Returned (import_done email st'))
              <$> read_loop fuel 1%nat st
        end
  end.
End import_reader.

(** The results of calls [k], [k+1], .., [k+len-1] of a reader. *)
Definition reads (reader : Reader) (k len : nat) : list ReadResult :=
  reader <$> seq k len.

(** The reader over an input that ends: the results of a list, and
    [io.EOF] from then on. *)
Definition list_reader (stream : list ReadResult) : Reader :=
  λ k, default (inr EOF) (stream !! k).

(** A reader that gives a header and then fails on every call. *)
Definition stuck_reader : Reader :=
  λ k, match k with
       | O => inl header
       | S _ => inr (LibraryError "unexpected EOF")
       end.

(** ** The csv layer between export and import *)

(** Modelled from the documentation of [encoding/csv] (a library, not
    part of this repository): a field is read back as it was written,
    but for one thing, "carriage returns before newline characters are
    silently removed".  [csv_read_field] is what the reader returns
    for a field the writer wrote. *)
Fixpoint csv_read_field (s : string) : string :=
  match s with
  | EmptyString => EmptyString
  | String c s' =>
      match s' with
      | String c' s'' =>
          if (Ascii.eqb c "013" && Ascii.eqb c' "010")%char%bool
          then String c' (csv_read_field s'')
          else String c (csv_read_field s')
      | EmptyString => String c EmptyString
      end
  end.

(** The rows of an artifact as [csv.NewReader] reads them back, for
    rows of two fields or more, as those of an artifact are. *)
Definition read_back (artifact : list Line) : list ReadResult :=
  (λ line : Line, (inl (csv_read_field <$> line) : ReadResult))
    <$> artifact.

(** A record whose fields the csv layer leaves as they are: no field
    of its row holds a carriage return before a newline. *)
Definition csv_stable `{Externals} (hit : Hit.t) : Prop :=
  csv_read_field <$> encode hit = encode hit.

(** A title over two lines with the line end of a form post, and the
    same title as it is read back. *)
Definition two_line_title : string :=
  String "a" (String "013" (String "010" (String "b" EmptyString))).

Definition two_line_title_read : string :=
  String "a" (String "010" (String "b" EmptyString)).

(** The state at the top of the second pass of the run over the sample
    store. *)
Definition sample_second_pass : @RunState Reference.externals :=
  default (start (sample_job 9 0)) (arrives sample_world (sample_job 9 0) 1).

(** A world around an empty store. *)
Definition empty_world : @ExportWorld Reference.externals :=
  healthy_world [] 0 "digest" "2020-06-18 12:00:00" (λ _, "0.0").

(** The line of a page view of the sample session, and the hit it
    decodes to. *)
Definition session_line : Line :=
  sample_line "/a" "false" "00000000-0000-0001-0000-0000000000ff"
    "1920,1080,1".

Definition session_hit : @Hit.t Reference.externals :=
  (ExportRow.Hit (H:=Reference.externals)
     (sample_row "/a" "false" "00000000-0000-0001-0000-0000000000ff"
        "1920,1080,1") 1).1.

(** A result of [c.Read()] that is an error of the csv reader. *)
Definition csv_fault : ReadResult :=
  inr (LibraryError "record on line 3: wrong number of fields").

(** The state in which the import of an artifact of version 2 ends. *)
Definition wrong_version_end : @ImportState Reference.externals :=
  importError (WrongVersion "2" ExportVersion) (import_start [] 0).

(** An input of a header, two page views of one session and a result
    that is an error of the csv reader, and the reader over it. *)
Definition sample_stream : list ReadResult :=
  inl ("1Path" :: tail header) :: two_rows_one_session ++ [csv_fault].

Definition sample_reader : Reader := list_reader sample_stream.
(** * Properties of the row codec *)

Section codec_facts.
Context `{Externals}.

Lemma HasErrors_true (v : Validator) : v ≠ ∅ → HasErrors v = true.
Proof.
  intros Hv. unfold HasErrors.
  destruct (Nat.eqb_spec (size v) 0) as [E|E]; [|reflexivity].
  apply map_size_empty_iff in E. contradiction.
Qed.

Lemma report_lookup_ne (key key' : string) (fault : option string)
    (v : Validator) :
  key ≠ key' → (report key fault v).2 !! key' = v !! key'.
Proof.
  intros Hne. destruct fault as [msg|]; simpl; [|reflexivity].
  unfold Append. by apply lookup_insert_ne.
Qed.

Lemma report_None (key : string) (v : Validator) :
  (report key None v).2 = v.
Proof. reflexivity. Qed.

Lemma report_all_None (fs : list (string * option string)) (v : Validator) :
  Forall (λ kf, kf.2 = None) fs → report_all fs v = v.
Proof.
  intros Hfs. revert v. induction Hfs as [|[k f] fs Hf _ IH]; intros v.
  - reflexivity.
  - simpl in Hf. subst f.
    change (report_all fs (report k None v).2 = v). apply IH.
Qed.

Lemma report_all_lookup_ne (fs : list (string * option string))
    (key : string) (v : Validator) :
  Forall (λ kf, kf.1 ≠ key) fs → report_all fs v !! key = v !! key.
Proof.
  intros Hfs. revert v. induction Hfs as [|[k f] fs Hk _ IH]; intros v.
  - reflexivity.
  - change (report_all fs (report k f v).2 !! key = v !! key).
    rewrite IH. by apply report_lookup_ne.
Qed.

(** The validation calls of [Hit], run from the validator [v]. *)
Lemma validate_run (row : ExportRow.t) (siteID : Z) (v : Validator) :
  ExportRow.validate row siteID v
  = (decoded row siteID, report_all (faults row) v).
Proof.
  unfold ExportRow.validate, decoded, faults, report_all, Required,
    Boolean, Integer, Date, Include.
  destruct (zv_Boolean (ExportRow.Event row)) as [b1 f1].
  destruct (zv_Integer (ExportRow.Bot row)) as [n2 f2].
  destruct (zv_Boolean (ExportRow.FirstVisit row)) as [b3 f3].
  destruct (zv_Date (ExportRow.CreatedAt row)) as [t4 f4].
  destruct (decide (ExportRow.RefScheme row ≠ "")); reflexivity.
Qed.
End codec_facts.

Section codec_claims.
Context `{Externals}.

(** C9: a row whose Screen-size column is non-empty and fails to parse
    is decoded to exactly that parse failure; the error returned is not
    the validator, whatever faults the validation calls found on the
    path, the flags, the bot code, the timestamp or the referrer
    scheme. *)
Theorem Hit_size_parse_failure_only (row : ExportRow.t) (siteID : Z)
    (msg : string) :
  ExportRow.Size row ≠ "" →
  (Floats_UnmarshalText (ExportRow.Size row)).2 = Some msg →
  (ExportRow.Hit row siteID).2 = Some (LibraryError msg)
  ∧ ∀ v, (ExportRow.Hit row siteID).2 ≠ Some (ValidationError v).
Proof.
  intros Hsize Hparse.
  assert ((ExportRow.Hit row siteID).2 = Some (LibraryError msg)) as Herr.
  { unfold ExportRow.Hit. rewrite validate_run.
    destruct (decide (ExportRow.Size row ≠ "")) as [_|Hn]; [|contradiction].
    destruct (Floats_UnmarshalText (ExportRow.Size row)) as [size err].
    simpl in *. by rewrite Hparse. }
  split; [exact Herr|].
  intros v Hv. rewrite Herr in Hv. discriminate.
Qed.

(** With an empty Size column the error of [Hit] is the validator's. *)
Lemma Hit_without_size (row : ExportRow.t) (siteID : Z) :
  ExportRow.Size row = "" →
  ExportRow.Hit row siteID
  = (decoded row siteID,
     ErrorOrNil (report_all (faults row) zvalidate_New)).
Proof.
  intros Hsize. unfold ExportRow.Hit. rewrite validate_run.
  destruct (decide (ExportRow.Size row ≠ "")) as [Hn|_]; [contradiction|].
  reflexivity.
Qed.

(** With a non-empty Size column the error of [Hit] is the one of
    [UnmarshalText], or none: the validator is not consulted. *)
Lemma Hit_with_size (row : ExportRow.t) (siteID : Z) :
  ExportRow.Size row ≠ "" →
  ExportRow.Hit row siteID
  = (ExportRow.with_Size (decoded row siteID)
       (Floats_UnmarshalText (ExportRow.Size row)).1,
     LibraryError <$> (Floats_UnmarshalText (ExportRow.Size row)).2).
Proof.
  intros Hsize. unfold ExportRow.Hit. rewrite validate_run.
  destruct (decide (ExportRow.Size row ≠ "")) as [_|Hn]; [|contradiction].
  by destruct (Floats_UnmarshalText (ExportRow.Size row)).
Qed.

Lemma required_fault_reported (row : ExportRow.t) (msg : string) :
  zv_Required (ExportRow.Path row) = Some msg →
  report_all (faults row) zvalidate_New !! "path" = Some [msg].
Proof.
  intros Hreq. unfold faults.
  change (report_all ?fs ?v) with
    (report_all (tail fs) (report "path" (zv_Required (ExportRow.Path row)) v).2).
  rewrite report_all_lookup_ne.
  - rewrite Hreq. simpl. unfold Append, zvalidate_New.
    rewrite lookup_empty. simpl. apply lookup_insert_eq.
  - simpl. repeat constructor; discriminate.
Qed.

(** C3, as amended: a row with an empty Path column and an empty
    Screen-size column is rejected with a required-field fault for the
    path, whatever its other columns hold; when the Screen-size column
    is non-empty and fails to parse, the row is rejected with that
    parse failure instead.  ([msg] is the message [v.Required] gives
    for the empty string.) *)
Theorem Hit_empty_path (row : ExportRow.t) (siteID : Z) (msg : string) :
  zv_Required "" = Some msg →
  ExportRow.Path row = "" →
  (ExportRow.Size row = "" →
     required_path_fault msg (ExportRow.Hit row siteID).2)
  ∧ (∀ failure,
       ExportRow.Size row ≠ "" →
       (Floats_UnmarshalText (ExportRow.Size row)).2 = Some failure →
       (ExportRow.Hit row siteID).2 = Some (LibraryError failure)).
Proof.
  intros Hreq Hpath. split.
  - intros Hsize. rewrite Hit_without_size by exact Hsize.
    assert (report_all (faults row) zvalidate_New !! "path" = Some [msg])
      as Hlook by (apply required_fault_reported; by rewrite Hpath).
    exists (report_all (faults row) zvalidate_New). split; [|exact Hlook].
    cbn [snd]. unfold ErrorOrNil. rewrite HasErrors_true; [reflexivity|].
    intros Hempty. rewrite Hempty in Hlook.
    by rewrite lookup_empty in Hlook.
  - intros failure Hsize Hparse.
    rewrite Hit_with_size by exact Hsize. simpl. by rewrite Hparse.
Qed.

(** The slip next to C3: once the Screen-size column parses, [Hit]
    returns no error at all, so a row with an empty path is accepted. *)
Lemma empty_path_accepted_with_size (row : ExportRow.t) (siteID : Z) :
  ExportRow.Path row = "" →
  ExportRow.Size row ≠ "" →
  (Floats_UnmarshalText (ExportRow.Size row)).2 = None →
  (ExportRow.Hit row siteID).2 = None
  ∧ Hit.Path (ExportRow.Hit row siteID).1 = "".
Proof.
  intros Hpath Hsize Hparse. rewrite Hit_with_size by exact Hsize.
  simpl. by rewrite Hparse.
Qed.

Lemma Read_encode (hit : Hit.t) :
  ExportRow.Read (encode hit)
  = inl (ExportRow.mk (Hit.Path hit) (Hit.Title hit)
           (Sprintf_t (Hit.Event hit)) (FormatInt (Hit.Bot hit))
           (match Hit.OldSession hit with
            | Some old => FormatInt old
            | None => uuid_String (Hit.Session hit)
            end)
           (Sprintf_t (Hit.FirstVisit hit)) (Hit.Ref hit)
           (match Hit.RefScheme hit with
            | Some scheme => scheme
            | None => ""
            end)
           (Hit.Browser hit) (zfloat_Join (Hit.Size hit))
           (Hit.Location hit) (Time_Format (Hit.CreatedAt hit))).
Proof. reflexivity. Qed.

(** C4, as amended: encoding a valid record and decoding the row
    succeeds and gives back the record in every field the row carries
    (path, title, event flag, bot code, first-visit flag, referrer,
    referrer scheme, browser, screen size, location, timestamp); the
    session and the legacy session are not restored (the session is
    left zero), the identity is zero and the site is the importing
    one. *)
Theorem roundtrip_restores (hit : Hit.t) (siteID : Z) :
  codec_valid hit →
  decode_encoded hit siteID = Some (restored hit siteID, None).
Proof.
  intros (Hpath & Hreq & Hevent & Hbot & Hfirst & Hdate & Hscheme & Hsize).
  unfold decode_encoded. rewrite Read_encode.
  set (row := ExportRow.mk _ _ _ _ _ _ _ _ _ _ _ _).
  assert (decoded row siteID
          = ExportRow.with_Size (restored hit siteID) []) as Hdec.
  { unfold decoded, restored, ExportRow.with_Size, row. simpl.
    rewrite Hevent, Hbot, Hfirst, Hdate. simpl.
    destruct (Hit.RefScheme hit) as [scheme|].
    - destruct Hscheme as (Hne & _ & _).
      by destruct (decide (scheme ≠ "")).
    - by destruct (decide ("" ≠ "")). }
  assert (report_all (faults row) zvalidate_New = zvalidate_New) as Hv.
  { apply report_all_None. unfold faults, row. simpl.
    rewrite Hreq, Hevent, Hbot, Hfirst, Hdate. simpl.
    repeat constructor; simpl.
    destruct (Hit.RefScheme hit) as [scheme|].
    - destruct Hscheme as (Hne & _ & Hinc).
      by destruct (decide (scheme ≠ "")).
    - by destruct (decide ("" ≠ "")). }
  f_equal.
  destruct (decide (zfloat_Join (Hit.Size hit) ≠ "")) as [Hjoin|Hjoin].
  - rewrite Hit_with_size by exact Hjoin.
    change (ExportRow.Size row) with (zfloat_Join (Hit.Size hit)).
    rewrite Hsize, Hdec. reflexivity.
  - rewrite Hit_without_size by (by apply dec_stable).
    rewrite Hv, Hdec. unfold restored, ExportRow.with_Size. simpl.
    by rewrite Hsize.
Qed.
End codec_claims.

(** ** The codec on concrete rows *)

(** C9 on a row that also has an empty path and a malformed flag. *)
Lemma Hit_size_parse_failure_only_witness :
  (ExportRow.Hit (H:=Reference.externals)
     (sample_row "" "maybe" "a" "1920,x") 1).2
  = Some (LibraryError "invalid syntax")
  ∧ ∀ v, (ExportRow.Hit (H:=Reference.externals)
            (sample_row "" "maybe" "a" "1920,x") 1).2
         ≠ Some (ValidationError v).
Proof.
  apply (Hit_size_parse_failure_only (H:=Reference.externals)
           (sample_row "" "maybe" "a" "1920,x") 1 "invalid syntax").
  - discriminate.
  - reflexivity.
Defined.

(** C3 fails as stated: this row has an empty path and is rejected, but
    with the parse failure of its Screen-size column; no required-field
    fault is returned. *)
Lemma Hit_empty_path_counterexample :
  ExportRow.Path (sample_row "" "false" "a" "1920,x") = ""
  ∧ (ExportRow.Hit (H:=Reference.externals)
       (sample_row "" "false" "a" "1920,x") 1).2
    = Some (LibraryError "invalid syntax")
  ∧ ∀ msg, ¬ required_path_fault msg
               (ExportRow.Hit (H:=Reference.externals)
                  (sample_row "" "false" "a" "1920,x") 1).2.
Proof.
  split; [reflexivity|]. split; [reflexivity|].
  intros msg (v & Hv & _). discriminate Hv.
Qed.

(** The amended C3 on two rows with an empty path: one without a screen
    size, one whose screen size does not parse. *)
Lemma Hit_empty_path_witness :
  required_path_fault "must be set"
    (ExportRow.Hit (H:=Reference.externals)
       (sample_row "" "false" "a" "") 1).2
  ∧ (ExportRow.Hit (H:=Reference.externals)
       (sample_row "" "false" "a" "1920,x") 1).2
    = Some (LibraryError "invalid syntax").
Proof.
  split.
  - apply (Hit_empty_path (H:=Reference.externals)
             (sample_row "" "false" "a" "") 1 "must be set");
      reflexivity.
  - apply (Hit_empty_path (H:=Reference.externals)
             (sample_row "" "false" "a" "1920,x") 1 "must be set");
      [reflexivity | reflexivity | discriminate | reflexivity].
Defined.

(** The slip next to C3 on a concrete row: empty path, screen size
    "1920,1080,1"; the row is decoded without error. *)
Example empty_path_accepted_example :
  ExportRow.Hit (H:=Reference.externals)
    (sample_row "" "false" "a" "1920,1080,1") 1
  = (Hit.mk Reference.externals 0 1 Uint128_zero None "" "Home" false 0
       "https://example.com" (Some "h") "Firefox 77" [1920; 1080; 1] "NL"
       true "2020-06-18T12:00:00Z",
     None).
Proof. reflexivity. Qed.

Lemma sample_hit_valid (id : Z) (session : Uint128) :
  codec_valid (H:=Reference.externals) (sample_hit id session "/a").
Proof.
  repeat split; try discriminate; try reflexivity.
  apply list_elem_of_In. simpl. auto.
Qed.

(** C4 fails as stated: a valid record with a session is not what
    decoding its row gives back. *)
Lemma roundtrip_counterexample :
  codec_valid (H:=Reference.externals) (sample_hit 0 (1, 255) "/a")
  ∧ decode_encoded (sample_hit 0 (1, 255) "/a") 1
    ≠ Some (sample_hit 0 (1, 255) "/a", None).
Proof.
  split; [apply sample_hit_valid|].
  assert (decode_encoded (sample_hit 0 (1, 255) "/a") 1
          = Some (restored (sample_hit 0 (1, 255) "/a") 1, None)) as ->
    by reflexivity.
  unfold restored, sample_hit. cbn [Hit.Session]. intros [=].
Qed.

(** The amended C4 on a page view. *)
Lemma roundtrip_restores_witness :
  decode_encoded (sample_hit 7 (1, 255) "/a") 1
  = Some (restored (sample_hit 7 (1, 255) "/a") 1, None).
Proof.
  apply (roundtrip_restores (H:=Reference.externals)).
  repeat split; try discriminate; try reflexivity.
  apply list_elem_of_In. simpl. auto.
Defined.

(** * Properties of the export engine *)

Section export_facts.
Context `{Externals} (w : ExportWorld).

(** What one pass of the loop leaves alone, and what it adds. *)
Lemma batch_frame (n : nat) (st : RunState) :
  ∃ tr, trace (batch w n st).1 = (trace st ++ tr)%list
        ∧ forallb data_effect tr = true
        ∧ ExportJob.ID (job (batch w n st).1) = ExportJob.ID (job st)
        ∧ ExportJob.Size (job (batch w n st).1) = ExportJob.Size (job st)
        ∧ ExportJob.Hash (job (batch w n st).1) = ExportJob.Hash (job st).
Proof.
  unfold batch.
  destruct (Hits_List w n 5000 _) as [[hits last] err].
  destruct (decide (length hits = 0%nat)).
  { eexists. split; [reflexivity|]. by repeat split. }
  destruct err.
  { eexists. split; [reflexivity|]. by repeat split. }
  assert (forallb data_effect (CsvWrite <$> (encode <$> hits)) = true) as Hw.
  { apply forallb_forall. intros ev Hin.
    apply list_elem_of_In, list_elem_of_fmap in Hin as (row & -> & _).
    reflexivity. }
  destruct (csv_Error w n); cbn [fst trace job];
    (eexists; split; [by rewrite <- app_assoc|]);
    (split; [|by repeat split]);
    rewrite !forallb_app, Hw; reflexivity.
Qed.

(** A read that returns an error ends the loop in that pass, with the
    error in [exportErr]. *)
Lemma batch_read_error (n : nat) (st : RunState) (hits : Hits) (last : Z)
    (err : error) :
  Hits_List w n 5000 (checkpoint st) = (hits, last, Some err) →
  (batch w n st).2 = false ∧ exportErr (batch w n st).1 = Some err.
Proof.
  unfold batch, checkpoint. intros ->.
  by destruct (decide (length hits = 0%nat)).
Qed.

Section from_job.
Context (e : ExportJob.t).

Lemma loop_arrives (n k : nat) (st : RunState) :
  arrives w e n = Some st →
  loop w (n + k) 0 (start e) = loop w k n st.
Proof.
  revert k st. induction n as [|n IH]; intros k st Harr.
  - simpl in Harr. by injection Harr as <-.
  - simpl in Harr.
    destruct (arrives w e n) as [st0|] eqn:E0; [|discriminate].
    destruct (batch w n st0) as [st1 again] eqn:Eb.
    destruct again; [|discriminate]. injection Harr as <-.
    replace (S n + k)%nat with (n + S k)%nat by lia.
    rewrite (IH (S k) st0 eq_refl). simpl. by rewrite Eb.
Qed.

Lemma batch_again (n : nat) (st st' : RunState) :
  batch w n st = (st', true) → exportErr st' = None ∧ pending st' = [].
Proof.
  unfold batch.
  destruct (Hits_List w n 5000 _) as [[hits last] err].
  destruct (decide (length hits = 0%nat)); [intros [=]|].
  destruct err; [intros [=]|].
  destruct (csv_Error w n); intros [=]. by subst st'.
Qed.

Lemma batch_break (n : nat) (st st' : RunState) :
  batch w n st = (st', false) → exportErr st' = None →
  pending st' = pending st.
Proof.
  unfold batch.
  destruct (Hits_List w n 5000 _) as [[hits last] err].
  destruct (decide (length hits = 0%nat)).
  { intros [=]. by subst st'. }
  destruct err.
  { intros [=]. by subst st'. }
  destruct (csv_Error w n); intros [=]. by subst st'.
Qed.

Lemma start_at_top : at_top e (start e).
Proof. unfold at_top, start. simpl. repeat split; auto. Qed.

Lemma batch_at_top (n : nat) (st st' : RunState) :
  at_top e st → batch w n st = (st', true) → at_top e st'.
Proof.
  intros (_ & Htr & Hid & Hsz & Hh & _) Hb.
  destruct (batch_frame n st) as (tr & Ht & Hd & Hid' & Hsz' & Hh').
  destruct (batch_again n st st' Hb) as [He Hp].
  rewrite Hb in *. simpl in *.
  unfold at_top. rewrite Ht, forallb_app, Htr, Hd, He, Hp.
  repeat split; auto; congruence.
Qed.

Lemma arrives_at_top (n : nat) (st : RunState) :
  arrives w e n = Some st → at_top e st.
Proof.
  revert st. induction n as [|n IH]; intros st Harr; simpl in Harr.
  - injection Harr as <-. apply start_at_top.
  - destruct (arrives w e n) as [st0|]; [|discriminate].
    destruct (batch w n st0) as [st1 again] eqn:Eb.
    destruct again; [|discriminate]. injection Harr as <-.
    eapply batch_at_top; [by apply IH|exact Eb].
Qed.

(** A loop that ends has passed through the top of its last pass. *)
Lemma loop_last_pass (fuel n : nat) (st st' : RunState) :
  loop w fuel n st = Some st' →
  arrives w e n = Some st →
  ∃ m st0, arrives w e m = Some st0 ∧ batch w m st0 = (st', false).
Proof.
  revert n st. induction fuel as [|fuel IH]; intros n st Hloop Harr.
  - discriminate.
  - simpl in Hloop. destruct (batch w n st) as [st1 again] eqn:Eb.
    destruct again.
    + apply (IH (S n) st1 Hloop). simpl. by rewrite Harr, Eb.
    + injection Hloop as <-. by exists n, st.
Qed.

(** The state in which the loop ends. *)
Lemma loop_end (fuel : nat) (st' : RunState) :
  loop w fuel 0 (start e) = Some st' →
  forallb data_effect (trace st') = true
  ∧ ExportJob.ID (job st') = ExportJob.ID e
  ∧ ExportJob.Size (job st') = ExportJob.Size e
  ∧ ExportJob.Hash (job st') = ExportJob.Hash e
  ∧ (exportErr st' = None → pending st' = [] ∨ pending st' = [header]).
Proof.
  intros Hloop.
  destruct (loop_last_pass fuel 0 (start e) st' Hloop eq_refl)
    as (m & st0 & Harr & Hb).
  destruct (arrives_at_top m st0 Harr) as (_ & Htr & Hid & Hsz & Hh & Hp).
  destruct (batch_frame m st0) as (tr & Ht & Hd & Hid' & Hsz' & Hh').
  rewrite Hb in *. simpl in *.
  rewrite Ht, forallb_app, Htr, Hd.
  repeat split; try congruence.
  intros He. by rewrite (batch_break m st0 st' Hb He).
Qed.
End from_job.

Lemma statements_data (tr : list Effect) :
  forallb data_effect tr = true → statements tr = [].
Proof.
  unfold statements. induction tr as [|ev tr IH]; [done|].
  simpl. intros [Hev Htr]%andb_true_iff.
  destruct ev; try discriminate; simpl; auto.
Qed.

Lemma removed_data (tr : list Effect) :
  forallb data_effect tr = true → artifact_removed tr = false.
Proof.
  unfold artifact_removed. induction tr as [|ev tr IH]; [done|].
  simpl. intros [Hev Htr]%andb_true_iff.
  destruct ev; try discriminate; simpl; auto.
Qed.

Lemma statements_app (tr1 tr2 : list Effect) :
  statements (tr1 ++ tr2) = (statements tr1 ++ statements tr2)%list.
Proof. apply omap_app. Qed.

Lemma removed_app (tr1 tr2 : list Effect) :
  artifact_removed (tr1 ++ tr2)
  = artifact_removed tr1 || artifact_removed tr2.
Proof. apply existsb_app. Qed.
End export_facts.

Section export_claims.
Context `{Externals} (w : ExportWorld) (e : ExportJob.t).

(** The abort path of [Run]: the statements after the loop when
    [exportErr] is set. *)
Lemma finish_abort (mailUser : bool) (st : RunState) (err : error) :
  exportErr st = Some err →
  finish w mailUser st
  = mkRunState _ (job st) (Some err) (pending st) (flushed st)
      (trace st
       ++ [LogError err; Exec (UpdateError err (ExportJob.ID (job st)));
           GzClose; FpClose; Remove] ++ deferred)%list.
Proof. intros He. unfold finish. by rewrite He. Qed.

Lemma row_after_error (id : Z) (err : error) :
  foldl apply_stmt (created_row id) [UpdateError err id]
  = mkExportsRow id None None None None None (Some err).
Proof. simpl. by destruct (decide (id = id)). Qed.

(** C2: when a batch read returns an error (with or without records),
    the run ends in that pass: the error is written to the job row, the
    artifact file is removed, and neither the row nor the job in memory
    gets a size or a hash.  The read is the one of pass [n], reached in
    state [st]; [fuel] only has to cover the passes up to it. *)
Theorem Run_read_error (mailUser : bool) (n fuel : nat) (st : RunState)
    (hits : Hits) (last : Z) (err : error) :
  arrives w e n = Some st →
  Hits_List w n 5000 (checkpoint st) = (hits, last, Some err) →
  (n < fuel)%nat →
  ∃ r, Run w fuel e mailUser = Some r
       ∧ statements (trace r) = [UpdateError err (ExportJob.ID e)]
       ∧ artifact_removed (trace r) = true
       ∧ row_after (trace r) (created_row (ExportJob.ID e))
         = mkExportsRow (ExportJob.ID e) None None None None None (Some err)
       ∧ ExportJob.Size (job r) = ExportJob.Size e
       ∧ ExportJob.Hash (job r) = ExportJob.Hash e.
Proof.
  intros Harr Hread Hfuel.
  destruct (batch_read_error w n st hits last err Hread) as [Hstop Herr].
  destruct (arrives_at_top w e n st Harr) as (_ & Htr & Hid & Hsz & Hh & _).
  destruct (batch_frame w n st) as (tr & Ht & Hd & Hid' & Hsz' & Hh').
  destruct (batch w n st) as [st1 again] eqn:Eb. simpl in *. subst again.
  assert (loop w fuel 0 (start e) = Some st1) as Hloop.
  { replace fuel with (n + S (fuel - S n))%nat by lia.
    rewrite (loop_arrives w e n _ st Harr). simpl. by rewrite Eb. }
  assert (statements (trace st1) = []) as Hstmts.
  { apply statements_data. by rewrite Ht, forallb_app, Htr, Hd. }
  exists (finish w mailUser st1). unfold Run. rewrite Hloop.
  split; [reflexivity|].
  rewrite (finish_abort mailUser st1 err Herr). cbn [trace job].
  assert (statements (trace st1
            ++ [LogError err; Exec (UpdateError err (ExportJob.ID (job st1)));
                GzClose; FpClose; Remove] ++ deferred)
          = [UpdateError err (ExportJob.ID e)]) as Hall.
  { rewrite statements_app, Hstmts, Hid', Hid. reflexivity. }
  split; [exact Hall|].
  split.
  { rewrite removed_app. apply orb_true_iff. by right. }
  split.
  { unfold row_after. rewrite Hall. apply row_after_error. }
  split; congruence.
Qed.

(** C8: when the loop has ended without error and closing the gzip
    stream, syncing the file or hashing it fails, the run returns
    without removing the artifact and without any statement on the job
    row, which stays as created: no finished_at, num_rows, size or
    hash. *)
Theorem Run_finalize_failure (mailUser : bool) (fuel : nat)
    (st : RunState) :
  loop w fuel 0 (start e) = Some st →
  exportErr st = None →
  is_Some (gzfp_Close w) ∨ is_Some (fp_Sync w)
    ∨ is_Some (zcrypto_HashFile w).2 →
  ∃ r, Run w fuel e mailUser = Some r
       ∧ artifact_removed (trace r) = false
       ∧ statements (trace r) = []
       ∧ row_after (trace r) (created_row (ExportJob.ID e))
         = created_row (ExportJob.ID e).
Proof.
  intros Hloop Herr Hfail.
  destruct (loop_end w e fuel st Hloop) as (Htr & _).
  exists (finish w mailUser st). unfold Run. rewrite Hloop.
  split; [reflexivity|].
  assert (∀ tr, artifact_removed tr = false → statements tr = [] →
                artifact_removed (trace st ++ tr ++ deferred) = false
                ∧ statements (trace st ++ tr ++ deferred) = []) as Hquiet.
  { intros tr Hr Hs.
    rewrite !removed_app, !statements_app, Hr, Hs.
    rewrite (removed_data _ Htr), (statements_data _ Htr). by split. }
  assert (artifact_removed (trace (finish w mailUser st)) = false
          ∧ statements (trace (finish w mailUser st)) = []) as [Hr Hs].
  { unfold finish. rewrite Herr.
    destruct (gzfp_Close w) as [e1|]; [by apply Hquiet|].
    destruct (fp_Sync w) as [e2|]; [by apply Hquiet|].
    destruct (fp_Close w) as [e3|]; [by apply Hquiet|].
    destruct (zcrypto_HashFile w) as [h [e4|]]; [by apply Hquiet|].
    destruct Hfail as [[? [=]]|[[? [=]]|[? [=]]]]. }
  split; [exact Hr|]. split; [exact Hs|].
  unfold row_after. by rewrite Hs.
Qed.
End export_claims.


Section store_reads.
Context `{Externals}.

(** A read that finds every record of the store beyond [after], within
    the limit, returns the whole store and the last identity. *)
Lemma listAfter_all (store : Hits) (limit after : Z) :
  Forall (λ h, after < Hit.ID h) store →
  (length store ≤ Z.to_nat limit)%nat →
  listAfter store limit after
  = (store, default after (Hit.ID <$> last store), None).
Proof.
  intros Hall Hlen. unfold listAfter.
  assert (filter (λ h : Hit.t, after < Hit.ID h) store = store) as ->.
  { induction Hall as [|h l Hh _ IH]; [done|].
    rewrite filter_cons_True by done. f_equal. apply IH.
    simpl in Hlen. lia. }
  by rewrite take_ge.
Qed.

(** A read beyond the last record returns nothing and leaves the
    checkpoint where it is. *)
Lemma listAfter_none (store : Hits) (limit after : Z) :
  Forall (λ h, Hit.ID h ≤ after) store →
  listAfter store limit after = ([], after, None).
Proof.
  intros Hall. unfold listAfter.
  assert (filter (λ h : Hit.t, after < Hit.ID h) store = []) as ->.
  { induction Hall as [|h l Hh _ IH]; [done|].
    rewrite filter_cons_False by lia. exact IH. }
  by rewrite take_nil.
Qed.

Context (w : ExportWorld).

(** A pass whose read and flush both succeed on a batch of records. *)
Lemma batch_ok (n : nat) (st : RunState) (hits : Hits) (last : Z) :
  Hits_List w n 5000 (checkpoint st) = (hits, last, None) →
  hits ≠ [] →
  csv_Error w n = None →
  batch w n st
  = (mkRunState _
       (ExportJob.set_NumRows
          (Some (default 0 (ExportJob.NumRows (job st))
                 + Z.of_nat (length hits)))
          (ExportJob.set_LastHitID (Some last) (job st)))
       None []
       (flushed st ++ pending st ++ (encode <$> hits))%list
       ((trace st ++ [ListHits 5000 (checkpoint st); Checkpoint last])
        ++ (CsvWrite <$> (encode <$> hits)) ++ [CsvFlush])%list,
     true).
Proof.
  intros Hread Hne Hflush. unfold batch, checkpoint in *.
  rewrite Hread, Hflush.
  destruct (decide (length hits = 0%nat)) as [Hlen|_]; [by destruct hits|].
  reflexivity.
Qed.

(** A pass whose read finds nothing. *)
Lemma batch_empty (n : nat) (st : RunState) (last : Z)
    (err : option error) :
  Hits_List w n 5000 (checkpoint st) = ([], last, err) →
  batch w n st
  = (mkRunState _ (ExportJob.set_LastHitID (Some last) (job st)) err
       (pending st) (flushed st)
       (trace st ++ [ListHits 5000 (checkpoint st); Checkpoint last])%list,
     false).
Proof.
  intros Hread. unfold batch, checkpoint in *. by rewrite Hread.
Qed.
End store_reads.

(** C6: exporting a store that holds three records with identities 1, 2
    and 3, from the beginning, in a world where the file and database
    calls succeed: the rows flushed into the artifact are the header and
    the three records, four CSV records in all, and the job row ends with
    num_rows 3, last_hit_id 3, the digest as hash and no error. *)
Theorem Run_three_records `{Externals} (h1 h2 h3 : Hit.t) (e : ExportJob.t)
    (mailUser : bool) (fuel : nat) (bytes : Z) (digest now : string)
    (mib : Z → string) :
  Hit.ID h1 = 1 → Hit.ID h2 = 2 → Hit.ID h3 = 3 →
  ExportJob.StartFromHitID e = 0 →
  (2 ≤ fuel)%nat →
  ∃ r, Run (healthy_world [h1; h2; h3] bytes digest now mib) fuel e mailUser
       = Some r
       ∧ flushed r = [header; encode h1; encode h2; encode h3]
       ∧ length (flushed r) = 4%nat
       ∧ pending r = []
       ∧ col_num_rows (row_after (trace r) (created_row (ExportJob.ID e)))
         = Some 3
       ∧ col_last_hit_id (row_after (trace r) (created_row (ExportJob.ID e)))
         = Some 3
       ∧ col_hash (row_after (trace r) (created_row (ExportJob.ID e)))
         = Some digest
       ∧ col_error (row_after (trace r) (created_row (ExportJob.ID e)))
         = None.
Proof.
  intros H1 H2 H3 Hstart Hfuel.
  destruct fuel as [|[|fuel]]; [lia|lia|].
  set (w := healthy_world [h1; h2; h3] bytes digest now mib).
  assert (Hits_List w 0 5000 0 = ([h1; h2; h3], 3, None)) as Hfirst.
  { unfold w, healthy_world. cbn [Hits_List].
    rewrite listAfter_all; [by rewrite <- H3| |simpl; lia].
    repeat constructor; lia. }
  assert (Hits_List w 1 5000 3 = ([], 3, None)) as Hsecond.
  { unfold w, healthy_world. cbn [Hits_List].
    apply listAfter_none. repeat constructor; lia. }
  eexists. split.
  { unfold Run. cbn [loop].
    rewrite (batch_ok w 0 (start e) [h1; h2; h3] 3); [| |done|done].
    2: { change (checkpoint (start e)) with (ExportJob.StartFromHitID e).
         by rewrite Hstart. }
    cbn [loop].
    erewrite (batch_empty w 1 _ 3 None); [|exact Hsecond].
    reflexivity. }
  unfold finish, row_after, w, healthy_world.
  cbn -[header encode Z.add]. unfold row_after.
  destruct mailUser; cbn -[header encode Z.add];
    (destruct (decide (ExportJob.ID e = ExportJob.ID e)); [|contradiction]);
    by repeat split.
Qed.

(** ** The export engine on concrete stores *)

(** C2 on a store that cannot be read: the first read returns an error
    and no record. *)
Lemma Run_read_error_witness :
  ∃ r, Run broken_store_world 1 (sample_job 9 0) false = Some r
       ∧ statements (trace r)
         = [UpdateError (LibraryError "Hits.List: connection refused") 9]
       ∧ artifact_removed (trace r) = true
       ∧ row_after (trace r) (created_row 9)
         = mkExportsRow 9 None None None None None
             (Some (LibraryError "Hits.List: connection refused"))
       ∧ ExportJob.Size (job r) = None
       ∧ ExportJob.Hash (job r) = None.
Proof.
  apply (Run_read_error broken_store_world (sample_job 9 0) false 0 1
           (start (sample_job 9 0)) [] 0
           (LibraryError "Hits.List: connection refused")).
  - reflexivity.
  - reflexivity.
  - lia.
Defined.

(** C8 on a store of one record, in a world where hashing the artifact
    fails. *)
Lemma Run_finalize_failure_witness :
  ∃ r, Run (no_digest_world [sample_hit 1 (1, 255) "/a"]) 2 (sample_job 9 0)
         false = Some r
       ∧ artifact_removed (trace r) = false
       ∧ statements (trace r) = []
       ∧ row_after (trace r) (created_row 9) = created_row 9.
Proof.
  eapply (Run_finalize_failure (no_digest_world [sample_hit 1 (1, 255) "/a"])
            (sample_job 9 0) false 2).
  - reflexivity.
  - reflexivity.
  - right. right. eexists. reflexivity.
Defined.

(** C7 fails as stated: with one record in the store and a flush that
    fails, the checkpoint is set to 1 before the row of record 1 is
    written and flushed, and it stays at 1 although nothing reached the
    artifact. *)
Lemma checkpoint_after_flush_counterexample :
  ∃ r, Run (full_disk_world [sample_hit 1 (1, 255) "/a"]) 1 (sample_job 9 0)
         false = Some r
       ∧ ¬ checkpoint_after_flush (trace r)
       ∧ ExportJob.LastHitID (job r) = Some 1
       ∧ flushed r = [].
Proof.
  eexists. split; [reflexivity|]. split; [|split; reflexivity].
  intros Hc.
  specialize (Hc [CsvWrite header; ListHits 5000 0] 1
                 (CsvWrite (encode (sample_hit 1 (1, 255) "/a"))) _ eq_refl).
  discriminate Hc.
Qed.

(** C6 on three page views. *)
Lemma Run_three_records_witness :
  ∃ r, Run (healthy_world
              [sample_hit 1 (1, 255) "/a"; sample_hit 2 (1, 255) "/b";
               sample_hit 3 (2, 7) "/a"]
              1024 "digest" "2020-06-18 12:00:00" (λ _, "0.0"))
         2 (sample_job 9 0) true = Some r
       ∧ flushed r
         = [header; encode (sample_hit 1 (1, 255) "/a");
            encode (sample_hit 2 (1, 255) "/b");
            encode (sample_hit 3 (2, 7) "/a")]
       ∧ length (flushed r) = 4%nat
       ∧ pending r = []
       ∧ col_num_rows (row_after (trace r) (created_row 9)) = Some 3
       ∧ col_last_hit_id (row_after (trace r) (created_row 9)) = Some 3
       ∧ col_hash (row_after (trace r) (created_row 9)) = Some "digest"
       ∧ col_error (row_after (trace r) (created_row 9)) = None.
Proof.
  apply (Run_three_records (H:=Reference.externals)
           (sample_hit 1 (1, 255) "/a") (sample_hit 2 (1, 255) "/b")
           (sample_hit 3 (2, 7) "/a") (sample_job 9 0) true 2 1024 "digest"
           "2020-06-18 12:00:00" (λ _, "0.0"));
    (reflexivity || lia).
Defined.

(** * Properties of the import engine *)

Section import_claims.
Context `{Externals} (w : ImportWorld) (siteID : Z).

(** The first row of a session token: a fresh identity enters the
    table, the hit is stored with the zero session. *)
Lemma ingest_first_use (row : ExportRow.t) (hit : Hit.t) (st : ImportState) :
  sessions st !! ExportRow.Session row = None →
  ingest w row hit st
  = mkImportState _ (memstore st ++ [with_Session hit Uint128_zero])%list
      (S (minted st))
      (<[ExportRow.Session row := SessionID w (minted st)]> (sessions st))
      (S (n st)) (errs st) (wiped st) (mails st).
Proof. intros Hs. unfold ingest. by rewrite Hs. Qed.

(** A later row of a session token: the hit is stored with the
    identity found in the table. *)
Lemma ingest_later_use (row : ExportRow.t) (hit : Hit.t) (st : ImportState)
    (s : Uint128) :
  sessions st !! ExportRow.Session row = Some s →
  ingest w row hit st
  = mkImportState _ (memstore st ++ [with_Session hit s])%list (minted st)
      (sessions st) (S (n st)) (errs st) (wiped st) (mails st).
Proof. intros Hs. unfold ingest. by rewrite Hs. Qed.

Lemma import_line_ok (line : Line) (row : ExportRow.t) (hit : Hit.t)
    (st : ImportState) :
  ExportRow.Read line = inl row →
  ExportRow.Hit row siteID = (hit, None) →
  import_line w siteID (inl line) st = ingest w row hit st.
Proof. intros Hread Hhit. unfold import_line. by rewrite Hread, Hhit. Qed.

(** C1, what the code does instead: of two rows with the same session
    token, new to the table, the first is handed to the memstore with
    the zero session and the second with the identity minted at the
    first; the two hits carry the same session only if the minted
    identity is zero. *)
Theorem Import_first_use_unmapped (line : Line) (row : ExportRow.t)
    (hit : Hit.t) (stored : Hits) (minted0 : nat) (email : bool) :
  ExportRow.Read line = inl row →
  ExportRow.Hit row siteID = (hit, None) →
  SessionID w minted0 ≠ Uint128_zero →
  ∃ st first second,
    Import w siteID [inl header; inl line; inl line] false email
      (import_start stored minted0) = Returned st
    ∧ memstore st = (stored ++ [first; second])%list
    ∧ Hit.Session first = Uint128_zero
    ∧ Hit.Session second = SessionID w minted0
    ∧ Hit.Session first ≠ Hit.Session second.
Proof.
  intros Hread Hhit Hfresh.
  exists (import_done email
            (import_rows w siteID [inl line; inl line]
               (import_start stored minted0))),
    (with_Session hit Uint128_zero),
    (with_Session hit (SessionID w minted0)).
  split; [reflexivity|].
  assert (import_rows w siteID [inl line; inl line]
            (import_start stored minted0)
          = import_line w siteID (inl line)
              (import_line w siteID (inl line)
                 (import_start stored minted0))) as -> by reflexivity.
  rewrite !(import_line_ok line row hit _ Hread Hhit).
  rewrite (ingest_first_use row hit (import_start stored minted0))
    by apply lookup_empty.
  erewrite ingest_later_use by apply lookup_insert_eq.
  split.
  { destruct email; cbn [import_done memstore import_start];
      by rewrite <- app_assoc. }
  repeat split; auto.
Qed.

(** C10: with an empty first header cell the version check fails and
    [Import] panics on [header[0][:1]]: it does not return, and no mail
    is sent; with a first cell that is non-empty and does not start
    with the version tag, it returns after reporting the wrong version,
    named by the first byte of the cell. *)
Theorem Import_version_mismatch (cells : Line) (rows : list ReadResult)
    (replace email : bool) (st : ImportState) :
  Import w siteID (inl ("" :: cells) :: rows) replace email st
  = Panicked st
  ∧ ∀ (c : ascii) (cell : string),
      HasPrefix (String c cell) ExportVersion = false →
      Import w siteID (inl (String c cell :: cells) :: rows) replace email st
      = Returned
          (importError (WrongVersion (String c "") ExportVersion) st).
Proof.
  split; [reflexivity|].
  intros c cell Hprefix. unfold Import. rewrite Hprefix.
  cbn [negb]. unfold slice_to. cbn. by destruct cell.
Qed.
End import_claims.

(** C5 at its failing input: the first header cell is empty, so it does
    not start with the version tag; whatever rows follow and whatever
    state [Import] is called in, it then panics in that state and does
    not return: nothing is ingested, but no failure mail is sent
    either. *)
Theorem Import_empty_version_cell `{Externals} (w : ImportWorld) (siteID : Z)
    (cells : Line) (rows : list ReadResult) (replace email : bool)
    (st : ImportState) :
  HasPrefix "" ExportVersion = false
  ∧ Import w siteID (inl ("" :: cells) :: rows) replace email st = Panicked st
  ∧ ∀ st', Import w siteID (inl ("" :: cells) :: rows) replace email st
           ≠ Returned (importError (WrongVersion "" ExportVersion) st').
Proof.
  split; [reflexivity|].
  assert (Import w siteID (inl ("" :: cells) :: rows) replace email st
          = Panicked st) as Hpanic by reflexivity.
  split; [exact Hpanic|].
  intros st' Hret. rewrite Hpanic in Hret. discriminate Hret.
Qed.

(** ** The import engine on concrete streams *)

(** C1 on an artifact with two rows of one session: the first hit
    reaches the memstore with the zero session, the second with the
    identity (7, 1). *)
Lemma Import_first_use_unmapped_witness :
  ∃ st first second,
    Import (H:=Reference.externals) sample_import_world 1
      [inl header;
       inl (sample_line "/a" "false" "00000000-0000-0001-0000-0000000000ff"
              "1920,1080,1");
       inl (sample_line "/a" "false" "00000000-0000-0001-0000-0000000000ff"
              "1920,1080,1")]
      false false (import_start [] 0) = Returned st
    ∧ memstore st = ([] ++ [first; second])%list
    ∧ Hit.Session first = Uint128_zero
    ∧ Hit.Session second = SessionID sample_import_world 0
    ∧ Hit.Session first ≠ Hit.Session second.
Proof.
  eapply (Import_first_use_unmapped (H:=Reference.externals)
            sample_import_world 1
            (sample_line "/a" "false" "00000000-0000-0001-0000-0000000000ff"
               "1920,1080,1")
            (sample_row "/a" "false" "00000000-0000-0001-0000-0000000000ff"
               "1920,1080,1")
            _ [] 0 false).
  - reflexivity.
  - reflexivity.
  - discriminate.
Defined.

(** The same import, run: both hits are stored, with different
    sessions. *)
Example Import_two_rows_one_session :
  ∃ st, Import (H:=Reference.externals) sample_import_world 1
          (inl header :: two_rows_one_session) false false
          (import_start [] 0) = Returned st
        ∧ Hit.Session <$> memstore st = [(0, 0); (7, 1)]
        ∧ n st = 2%nat.
Proof. eexists. split; [reflexivity|]. split; reflexivity. Qed.

(** C5 at a concrete artifact: an empty first header cell in front of
    two valid rows. *)
Example Import_empty_version_cell_example :
  Import (H:=Reference.externals) sample_import_world 1
    (inl ("" :: tail header) :: two_rows_one_session) false true
    (import_start [] 0)
  = Panicked (import_start [] 0).
Proof. reflexivity. Qed.

(** C10 on two headers: an empty first cell, and the first cell of a
    version 2 artifact. *)
Lemma Import_version_mismatch_witness :
  Import (H:=Reference.externals) sample_import_world 1
    (inl ("" :: tail header) :: two_rows_one_session) false true
    (import_start [] 0)
  = Panicked (import_start [] 0)
  ∧ Import (H:=Reference.externals) sample_import_world 1
      (inl ("2Path" :: tail header) :: two_rows_one_session) false true
      (import_start [] 0)
    = Returned (importError (WrongVersion "2" ExportVersion)
                  (import_start [] 0)).
Proof.
  destruct (Import_version_mismatch (H:=Reference.externals)
              sample_import_world 1 (tail header) two_rows_one_session
              false true (import_start [] 0)) as [Hpanic Hreport].
  split.
  - exact Hpanic.
  - apply (Hreport "2"%char "Path"). reflexivity.
Defined.


(** * Further properties of the row codec *)

(** [ExportRow.Read] accepts exactly the lines of twelve fields and
    stores them in order: reading a line gives a row whose fields, in
    the order of the struct, are the line; any other line is refused
    with the number of fields found and wanted. *)
Theorem Read_positional (line : Line) :
  (∀ row, ExportRow.Read line = inl row ↔ line = ExportRow_fields row)
  ∧ (length line ≠ 12%nat
     ↔ ExportRow.Read line = inr (WrongNumberOfFields (length line) 12)).
Proof.
  split.
  - intros row. split.
    + do 12 (destruct line as [|? line]; [discriminate|]).
      destruct line; [|discriminate]. intros [= <-]. reflexivity.
    + intros ->. by destruct row.
  - split.
    + intros Hlen.
      do 12 (destruct line as [|? line]; [reflexivity|]).
      destruct line; [by destruct Hlen|reflexivity].
    + do 12 (destruct line as [|? line]; [discriminate|]).
      destruct line; [discriminate|]. simpl. lia.
Qed.

Section codec_more.
Context `{Externals}.

Lemma report_lookup_eq (key : string) (fault : option string)
    (v : Validator) :
  v !! key = None →
  (report key fault v).2 !! key = (λ msg, [msg]) <$> fault.
Proof.
  intros Hv. destruct fault as [msg|]; simpl; [|exact Hv].
  unfold Append. by rewrite Hv, lookup_insert_eq.
Qed.

(** With distinct keys, the validator ends with one message under the
    key of every fault and nothing under the key of a passed check. *)
Lemma report_all_lookup (fs : list (string * option string))
    (key : string) (fault : option string) (v : Validator) :
  NoDup fs.*1 → (key, fault) ∈ fs → (∀ kf, kf ∈ fs → v !! kf.1 = None) →
  report_all fs v !! key = (λ msg, [msg]) <$> fault.
Proof.
  revert v. induction fs as [|[k f] fs IH]; intros v Hnd Hin Hv.
  - by apply elem_of_nil in Hin.
  - apply NoDup_cons in Hnd as [Hk Hnd].
    change (report_all fs (report k f v).2 !! key
            = (λ msg, [msg]) <$> fault).
    apply elem_of_cons in Hin as [[= -> ->]|Hin].
    + rewrite report_all_lookup_ne.
      * apply report_lookup_eq. apply (Hv (k, f)). by left.
      * apply Forall_forall. intros [k' f'] Hin' Heq. simpl in Heq.
        subst k'. apply Hk. apply list_elem_of_fmap. by exists (k, f').
    + apply IH; [exact Hnd|exact Hin|].
      intros [k' f'] Hin'. cbn [fst].
      rewrite report_lookup_ne.
      * apply (Hv (k', f')). by right.
      * intros Heq. subst k'. apply Hk.
        apply list_elem_of_fmap. by exists (k, f').
Qed.

Lemma faults_keys (row : ExportRow.t) : NoDup (faults row).*1.
Proof.
  unfold faults. simpl. apply NoDup_ListNoDup.
  repeat constructor; simpl; intuition discriminate.
Qed.

(** A row without a screen size is decoded without error exactly when
    none of the six validation calls (path, event, bot, firstVisit,
    createdAt, refScheme) reports a fault; otherwise the error is the
    validator, which holds one message under the key of every call that
    reported a fault and nothing under the key of a call that passed:
    faults are collected, not cut short at the first. *)
Theorem Hit_collects_faults (row : ExportRow.t) (siteID : Z) :
  ExportRow.Size row = "" →
  ((ExportRow.Hit row siteID).2 = None
   ↔ Forall (λ kf, kf.2 = None) (faults row))
  ∧ (∀ err, (ExportRow.Hit row siteID).2 = Some err →
       ∃ v, err = ValidationError v
            ∧ ∀ key fault, (key, fault) ∈ faults row →
                v !! key = (λ msg, [msg]) <$> fault).
Proof.
  intros Hsize. rewrite Hit_without_size by exact Hsize. cbn [snd].
  assert (∀ key fault, (key, fault) ∈ faults row →
            report_all (faults row) zvalidate_New !! key
            = (λ msg, [msg]) <$> fault) as Hlook.
  { intros key fault Hin.
    apply report_all_lookup; [apply faults_keys|exact Hin|].
    intros kf _. apply lookup_empty. }
  split.
  - split.
    + unfold ErrorOrNil, HasErrors. intros Hnil.
      destruct (Nat.eqb_spec (size (report_all (faults row) zvalidate_New)) 0)
        as [Hz|Hz]; [|discriminate].
      apply map_size_empty_iff in Hz.
      apply Forall_forall. intros [key fault] Hin.
      specialize (Hlook key fault Hin). rewrite Hz, lookup_empty in Hlook.
      simpl. by destruct fault.
    + intros Hall. by rewrite report_all_None.
  - intros err Herr. unfold ErrorOrNil in Herr.
    destruct (HasErrors _); [|discriminate]. injection Herr as <-.
    by eexists.
Qed.

(** Once the Screen-size column is non-empty and parses, [Hit] returns
    a nil error whatever the validation calls reported: the row is
    accepted with the faults of its other columns. *)
Theorem Hit_size_discards_faults (row : ExportRow.t) (siteID : Z) :
  ExportRow.Size row ≠ "" →
  (Floats_UnmarshalText (ExportRow.Size row)).2 = None →
  ExportRow.Hit row siteID
  = (ExportRow.with_Size (decoded row siteID)
       (Floats_UnmarshalText (ExportRow.Size row)).1, None).
Proof.
  intros Hsize Hparse. rewrite Hit_with_size by exact Hsize.
  by rewrite Hparse.
Qed.

(** [Hit] does not read the Session column: rows that differ only there
    decode alike, and the record returned always has the zero session,
    no legacy session, identity zero and the site it was given. *)
Theorem Hit_ignores_Session (row : ExportRow.t) (session : string)
    (siteID : Z) :
  ExportRow.Hit (ExportRow_with_Session session row) siteID
  = ExportRow.Hit row siteID
  ∧ Hit.Session (ExportRow.Hit row siteID).1 = Uint128_zero
  ∧ Hit.OldSession (ExportRow.Hit row siteID).1 = None
  ∧ Hit.ID (ExportRow.Hit row siteID).1 = 0
  ∧ Hit.Site (ExportRow.Hit row siteID).1 = siteID.
Proof.
  split; [by destruct row|].
  destruct (decide (ExportRow.Size row = "")) as [Hsize|Hsize].
  - by rewrite Hit_without_size.
  - by rewrite Hit_with_size.
Qed.
End codec_more.

(** [Hit_collects_faults] on a row with an empty path and a malformed
    event flag: both faults are in the validator, the bot column has
    none. *)
Lemma Hit_collects_faults_witness :
  ((ExportRow.Hit (H:=Reference.externals)
      (sample_row "" "maybe" "a" "") 1).2 = None
   ↔ Forall (λ kf, kf.2 = None)
       (faults (H:=Reference.externals) (sample_row "" "maybe" "a" "")))
  ∧ (∀ err, (ExportRow.Hit (H:=Reference.externals)
               (sample_row "" "maybe" "a" "") 1).2 = Some err →
       ∃ v, err = ValidationError v
            ∧ ∀ key fault,
                (key, fault) ∈ faults (H:=Reference.externals)
                                 (sample_row "" "maybe" "a" "") →
                v !! key = (λ msg, [msg]) <$> fault).
Proof.
  apply (Hit_collects_faults (H:=Reference.externals)
           (sample_row "" "maybe" "a" "") 1).
  reflexivity.
Defined.

(** [Hit_size_discards_faults] on a row with an empty path, a malformed
    event flag and the screen size "1920,1080,1". *)
Lemma Hit_size_discards_faults_witness :
  ExportRow.Hit (H:=Reference.externals)
    (sample_row "" "maybe" "a" "1920,1080,1") 1
  = (ExportRow.with_Size
       (decoded (H:=Reference.externals)
          (sample_row "" "maybe" "a" "1920,1080,1") 1)
       [1920; 1080; 1], None).
Proof.
  apply (Hit_size_discards_faults (H:=Reference.externals)
           (sample_row "" "maybe" "a" "1920,1080,1") 1).
  - discriminate.
  - reflexivity.
Defined.

(** * Further properties of the export engine *)

Section export_more.
Context `{Externals} (w : ExportWorld) (e : ExportJob.t).

Lemma encode_length (hit : Hit.t) : length (encode hit) = 12%nat.
Proof. reflexivity. Qed.

(** What one pass adds to the rows the csv writer has been given. *)
Lemma batch_rows (n : nat) (st : RunState) :
  ∃ rows, (flushed (batch w n st).1 ++ pending (batch w n st).1
           = flushed st ++ pending st ++ rows)%list
          ∧ Forall (λ row, length row = 12%nat) rows.
Proof.
  unfold batch.
  destruct (Hits_List w n 5000 _) as [[hits last] err].
  destruct (decide (length hits = 0%nat)).
  { exists []. by rewrite app_nil_r. }
  destruct err.
  { exists []. by rewrite app_nil_r. }
  assert (Forall (λ row, length row = 12%nat) (encode <$> hits)) as H12.
  { apply Forall_fmap, Forall_true. intros hit. apply encode_length. }
  destruct (csv_Error w n); exists (encode <$> hits); cbn [fst flushed pending];
    (split; [|exact H12]); by rewrite ?app_nil_r.
Qed.

(** A pass after which the loop goes on has read a batch without error,
    written and flushed it. *)
Lemma batch_again_inv (n : nat) (st st' : RunState) :
  batch w n st = (st', true) →
  ∃ hits last,
    Hits_List w n 5000 (checkpoint st) = (hits, last, None)
    ∧ hits ≠ []
    ∧ csv_Error w n = None
    ∧ checkpoint st' = last
    ∧ ExportJob.NumRows (job st')
      = Some (default 0 (ExportJob.NumRows (job st)) + Z.of_nat (length hits))
    ∧ flushed st' = (flushed st ++ pending st ++ (encode <$> hits))%list
    ∧ pending st' = [].
Proof.
  unfold batch, checkpoint.
  destruct (Hits_List w n 5000 _) as [[hits last] err].
  destruct (decide (length hits = 0%nat)); [intros [=]|].
  destruct err; [intros [=]|].
  destruct (csv_Error w n); intros [=]. subst st'.
  exists hits, last. repeat split; auto. by destruct hits.
Qed.

(** A pass that ends the loop without error has read an empty batch and
    left the rows and their count alone. *)
Lemma batch_break_inv (n : nat) (st st' : RunState) :
  batch w n st = (st', false) → exportErr st' = None →
  ∃ last,
    Hits_List w n 5000 (checkpoint st) = ([], last, None)
    ∧ ExportJob.LastHitID (job st') = Some last
    ∧ ExportJob.NumRows (job st') = ExportJob.NumRows (job st)
    ∧ flushed st' = flushed st ∧ pending st' = pending st
    ∧ trace st'
      = (trace st ++ [ListHits 5000 (checkpoint st); Checkpoint last])%list.
Proof.
  unfold batch, checkpoint.
  destruct (Hits_List w n 5000 _) as [[hits last] err].
  destruct (decide (length hits = 0%nat)) as [Hlen|Hlen].
  { intros [=] Herr. subst st'. simpl in Herr. subst err.
    destruct hits; [|discriminate]. by exists last. }
  destruct err; [intros [=]; by subst st'|].
  destruct (csv_Error w n); intros [=]. by subst st'.
Qed.

(** The reads of a run form a chain: the first read asks for the records
    after [e.StartFromHitID], and every later read for the records after
    the identity the read before it returned. *)
Theorem reads_chain (n : nat) (st' : RunState) :
  checkpoint (start e) = ExportJob.StartFromHitID e
  ∧ (arrives w e (S n) = Some st' →
     ∃ st hits last,
       arrives w e n = Some st
       ∧ Hits_List w n 5000 (checkpoint st) = (hits, last, None)
       ∧ hits ≠ []
       ∧ checkpoint st' = last).
Proof.
  split; [reflexivity|].
  simpl. destruct (arrives w e n) as [st|]; [|discriminate].
  destruct (batch w n st) as [st1 again] eqn:Eb.
  destruct again; [|discriminate]. intros [= <-].
  destruct (batch_again_inv n st st1 Eb) as (hits & last & Hr & Hne & _ & Hc & _).
  by exists st, hits, last.
Qed.

(** What holds of the rows at the top of every pass: the count in
    [e.NumRows] is the number of record rows written; either nothing has
    been flushed and the csv writer holds the header, or the writer is
    empty and the flushed rows start with the header. *)
Lemma arrives_rows (n : nat) (st : RunState) :
  arrives w e n = Some st →
  ExportJob.NumRows (job st)
  = Some (Z.of_nat (length (flushed st ++ pending st)) - 1)
  ∧ ((flushed st = [] ∧ pending st = [header] ∧ n = 0%nat)
     ∨ (pending st = [] ∧ ∃ rows, flushed st = header :: rows ∧ rows ≠ [])).
Proof.
  revert st. induction n as [|n IH]; intros st Harr; simpl in Harr.
  - injection Harr as <-. split; [reflexivity|]. by left.
  - destruct (arrives w e n) as [st0|]; [|discriminate].
    destruct (batch w n st0) as [st1 again] eqn:Eb.
    destruct again; [|discriminate]. injection Harr as <-.
    destruct (IH st0 eq_refl) as [Hnum Hshape].
    destruct (batch_again_inv n st0 st1 Eb)
      as (hits & last & _ & Hne & _ & _ & Hn1 & Hf1 & Hp1).
    split.
    + rewrite Hn1, Hnum, Hf1, Hp1. simpl. f_equal.
      rewrite app_nil_r, !length_app, length_fmap. lia.
    + right. split; [exact Hp1|]. rewrite Hf1.
      destruct Hshape as [(-> & -> & _)|(-> & rows & -> & _)].
      * exists (encode <$> hits). split; [reflexivity|]. by destruct hits.
      * exists (rows ++ (encode <$> hits))%list.
        split; [reflexivity|]. by destruct rows, hits.
Qed.
End export_more.

(** Closes a goal [ev ∉ l], or uses up a hypothesis [ev ∈ l], for an
    explicit list [l] that does not hold [ev]. *)
Ltac absent_from_list :=
  first
    [ rewrite ?elem_of_cons, ?elem_of_nil;
      let Hin := fresh "Hin" in
      intros Hin;
      repeat (destruct Hin as [Hin|Hin]; [discriminate Hin|]);
      destruct Hin
    | match goal with
      | Hin : _ ∈ _ |- _ =>
          rewrite ?elem_of_cons, ?elem_of_nil in Hin;
          repeat (destruct Hin as [Hin|Hin]; [discriminate Hin|]);
          destruct Hin
      end ].

Section export_outcomes.
Context `{Externals} (w : ExportWorld) (e : ExportJob.t).

Lemma finish_rows (mailUser : bool) (st : RunState) :
  flushed (finish w mailUser st) = flushed st
  ∧ pending (finish w mailUser st) = pending st
  ∧ exportErr (finish w mailUser st) = exportErr st
  ∧ ExportJob.NumRows (job (finish w mailUser st))
    = ExportJob.NumRows (job st)
  ∧ ExportJob.LastHitID (job (finish w mailUser st))
    = ExportJob.LastHitID (job st).
Proof.
  unfold finish.
  destruct (exportErr st); [done|].
  destruct (gzfp_Close w); [done|].
  destruct (fp_Sync w); [done|].
  destruct (fp_Close w); [done|].
  by destruct (zcrypto_HashFile w) as [h [err|]].
Qed.

Lemma data_effect_elem (tr : list Effect) (ev : Effect) :
  forallb data_effect tr = true → ev ∈ tr → data_effect ev = true.
Proof.
  intros Htr Hin. apply list_elem_of_In in Hin.
  by apply (proj1 (forallb_forall _ _) Htr).
Qed.

(** The statements of [Run] after the loop, for a state the loop ends
    in: the effects added and the job they leave. *)
Lemma finish_trace (mailUser : bool) (st : RunState) :
  ∃ tr, trace (finish w mailUser st) = (trace st ++ tr ++ deferred)%list
        ∧ match exportErr st with
          | Some err =>
              tr = [LogError err;
                    Exec (UpdateError err (ExportJob.ID (job st)));
                    GzClose; FpClose; Remove]
          | None =>
              (statements tr = [] ∧ artifact_removed tr = false
               ∧ MailExportDone ∉ tr)
              ∨ (statements tr
                 = [UpdateFinished (Now_Format w)
                      (ExportJob.NumRows (job (finish w mailUser st)))
                      (ExportJob.Size (job (finish w mailUser st)))
                      (ExportJob.Hash (job (finish w mailUser st)))
                      (ExportJob.LastHitID (job (finish w mailUser st)))
                      (ExportJob.ID (job st))]
                 ∧ artifact_removed tr = false
                 ∧ (MailExportDone ∈ tr ↔ mailUser = true)
                 ∧ gzfp_Close w = None ∧ fp_Sync w = None
                 ∧ fp_Close w = None ∧ (zcrypto_HashFile w).2 = None)
          end.
Proof.
  unfold finish.
  destruct (exportErr st) as [err|]; [by eexists|].
  destruct (gzfp_Close w).
  { eexists. split; [reflexivity|]. left.
    repeat split; try reflexivity. absent_from_list. }
  destruct (fp_Sync w).
  { eexists. split; [reflexivity|]. left.
    repeat split; try reflexivity. absent_from_list. }
  destruct (fp_Close w).
  { eexists. split; [reflexivity|]. left.
    repeat split; try reflexivity. absent_from_list. }
  destruct (zcrypto_HashFile w) as [h [err|]].
  { eexists. split; [reflexivity|]. left.
    repeat split; try reflexivity. absent_from_list. }
  eexists. split; [reflexivity|]. right.
  destruct mailUser; cbn; repeat split; auto; try discriminate.
  - intros _. rewrite !elem_of_cons. tauto.
  - absent_from_list.
Qed.

(** How a run can end.  The artifact is removed exactly when the loop
    ended with an error, and then the only statement on the job row is
    the update of its error; a run whose loop ended without error
    executes no statement at all or the one update of finished_at,
    num_rows, size, hash and last_hit_id, with the values the job holds
    in memory, and never removes the artifact.  The mail is sent only by
    a run that executed that update and was asked to mail. *)
Theorem Run_outcomes (mailUser : bool) (fuel : nat) (r : RunState) :
  Run w fuel e mailUser = Some r →
  (artifact_removed (trace r) = true ↔ is_Some (exportErr r))
  ∧ (∀ err, exportErr r = Some err →
       statements (trace r) = [UpdateError err (ExportJob.ID e)])
  ∧ (exportErr r = None →
       statements (trace r) = []
       ∨ statements (trace r)
         = [UpdateFinished (Now_Format w) (ExportJob.NumRows (job r))
              (ExportJob.Size (job r)) (ExportJob.Hash (job r))
              (ExportJob.LastHitID (job r)) (ExportJob.ID e)])
  ∧ (MailExportDone ∈ trace r →
       mailUser = true ∧ exportErr r = None
       ∧ statements (trace r) ≠ []).
Proof.
  unfold Run. intros Hrun.
  destruct (loop w fuel 0 (start e)) as [st|] eqn:Hloop; [|discriminate].
  injection Hrun as <-.
  destruct (loop_end w e fuel st Hloop) as (Htr & Hid & _).
  destruct (finish_rows mailUser st) as (_ & _ & Herr & _).
  destruct (finish_trace mailUser st) as (tr & Ht & Hcase).
  assert (artifact_removed (trace (finish w mailUser st))
          = artifact_removed tr) as Hrem.
  { rewrite Ht, !removed_app, (removed_data _ Htr). simpl.
    by rewrite orb_false_r. }
  assert (statements (trace (finish w mailUser st)) = statements tr) as Hst.
  { rewrite Ht, !statements_app, (statements_data _ Htr). simpl.
    by rewrite app_nil_r. }
  assert (MailExportDone ∈ trace (finish w mailUser st) →
          MailExportDone ∈ tr) as Hmail.
  { rewrite Ht, !elem_of_app. intros [Hin|[Hin|Hin]]; [|exact Hin|].
    - by apply (data_effect_elem _ _ Htr) in Hin.
    - unfold deferred in Hin. absent_from_list. }
  rewrite Hrem, Hst, Herr.
  destruct (exportErr st) as [err|].
  - subst tr. simpl. rewrite Hid.
    split; [split; [eauto|done]|].
    split; [by intros err' [= <-]|].
    split; [done|].
    intros Hin. apply Hmail in Hin. absent_from_list.
  - destruct Hcase as [(Hs & Hr & Hm)|(Hs & Hr & Hm & _)];
      rewrite Hs, Hr; simpl.
    + split; [split; [done|by intros [? [=]]]|].
      split; [done|]. split; [by left|].
      intros Hin. by apply Hmail in Hin.
    + rewrite Hid. split; [split; [done|by intros [? [=]]]|].
      split; [done|]. split; [by right|].
      intros Hin. apply Hmail in Hin. by apply Hm in Hin.
Qed.
(** A run that executed the update of finished_at ended its loop without
    error and wrote the row count it holds in memory. *)
Lemma Run_finished_inv (mailUser : bool) (fuel : nat) (r : RunState)
    (now : string) (rows : option Z) (sz h : option string)
    (last : option Z) (id : Z) :
  Run w fuel e mailUser = Some r →
  UpdateFinished now rows sz h last id ∈ statements (trace r) →
  exportErr r = None ∧ rows = ExportJob.NumRows (job r).
Proof.
  unfold Run. intros Hrun Hin.
  destruct (loop w fuel 0 (start e)) as [st|] eqn:Hloop; [|discriminate].
  injection Hrun as <-.
  destruct (loop_end w e fuel st Hloop) as (Htr & _).
  destruct (finish_rows mailUser st) as (_ & _ & Herr & _).
  destruct (finish_trace mailUser st) as (tr & Ht & Hcase).
  rewrite Ht, !statements_app, (statements_data _ Htr) in Hin.
  simpl in Hin. rewrite app_nil_r in Hin. rewrite Herr.
  destruct (exportErr st) as [err|].
  - subst tr. simpl in Hin. apply list_elem_of_singleton in Hin.
    discriminate Hin.
  - destruct Hcase as [(Hs & _)|(Hs & _)]; rewrite Hs in Hin.
    + by apply elem_of_nil in Hin.
    + apply list_elem_of_singleton in Hin. by injection Hin as _ -> _ _ _ _.
Qed.
End export_outcomes.

Section export_rows.
Context `{Externals} (w : ExportWorld) (e : ExportJob.t).

Lemma arrives_columns (n : nat) (st : RunState) :
  arrives w e n = Some st →
  Forall (λ row, length row = 12%nat) (flushed st ++ pending st).
Proof.
  revert st. induction n as [|n IH]; intros st Harr; simpl in Harr.
  - injection Harr as <-. by repeat constructor.
  - destruct (arrives w e n) as [st0|]; [|discriminate].
    destruct (batch w n st0) as [st1 again] eqn:Eb.
    destruct again; [|discriminate]. injection Harr as <-.
    destruct (batch_rows w n st0) as (rows & Hrows & H12).
    rewrite Eb in Hrows. simpl in Hrows. rewrite Hrows, app_assoc.
    apply Forall_app. split; [by apply IH|exact H12].
Qed.

(** Every row [Run] hands to the csv writer, the header included, has
    the twelve columns [ExportRow.Read] asks for, however the run
    ends. *)
Theorem Run_rows_have_twelve_columns (mailUser : bool) (fuel : nat)
    (r : RunState) :
  Run w fuel e mailUser = Some r →
  Forall (λ row, length row = ExportRow.NumField) (flushed r ++ pending r).
Proof.
  unfold Run. intros Hrun.
  destruct (loop w fuel 0 (start e)) as [st|] eqn:Hloop; [|discriminate].
  injection Hrun as <-.
  destruct (finish_rows w mailUser st) as (-> & -> & _).
  destruct (loop_last_pass w e fuel 0 (start e) st Hloop eq_refl)
    as (m & st0 & Harr & Hb).
  destruct (batch_rows w m st0) as (rows & Hrows & H12).
  rewrite Hb in Hrows. simpl in Hrows. rewrite Hrows, app_assoc.
  apply Forall_app. split; [by apply (arrives_columns m)|exact H12].
Qed.

(** The num_rows a run writes to the job row is the number of record
    rows in the artifact.  With at least one record the artifact is the
    header followed by the record rows and the csv writer is empty; with
    none, nothing was flushed: the header is still held by the csv
    writer, which [Run] only flushes after a batch. *)
Theorem Run_num_rows (mailUser : bool) (fuel : nat) (r : RunState)
    (now : string) (rows : option Z) (sz h : option string)
    (last : option Z) (id : Z) :
  Run w fuel e mailUser = Some r →
  UpdateFinished now rows sz h last id ∈ statements (trace r) →
  ∃ records : list Line,
    rows = Some (Z.of_nat (length records))
    ∧ ((records ≠ [] ∧ flushed r = header :: records ∧ pending r = [])
       ∨ (records = [] ∧ flushed r = [] ∧ pending r = [header])).
Proof.
  intros Hrun Hin.
  destruct (Run_finished_inv w e mailUser fuel r now rows sz h last id Hrun Hin)
    as (Herr & ->).
  unfold Run in Hrun.
  destruct (loop w fuel 0 (start e)) as [st|] eqn:Hloop; [|discriminate].
  injection Hrun as <-.
  destruct (finish_rows w mailUser st) as (-> & -> & Herr' & -> & _).
  rewrite Herr' in Herr.
  destruct (loop_last_pass w e fuel 0 (start e) st Hloop eq_refl)
    as (m & st0 & Harr & Hb).
  destruct (batch_break_inv w m st0 st Hb Herr)
    as (last' & _ & _ & -> & -> & -> & _).
  destruct (arrives_rows w e m st0 Harr) as [-> Hshape].
  destruct Hshape as [(-> & -> & _)|(-> & records & -> & Hne)].
  - exists []. split; [reflexivity|]. by right.
  - exists records. split.
    + f_equal. rewrite app_nil_r. simpl. lia.
    + by left.
Qed.
End export_rows.

Section checkpoint_claim.
Context `{Externals} (w : ExportWorld) (e : ExportJob.t).

(** C7, as amended: the checkpoint in memory, [e.LastHitID], is set to
    the identity every read returns as soon as the read returns (also
    an empty or a failed read): only the writes of the rows of that
    batch and their flush follow it in the pass, and it keeps the value
    when the flush fails.  The checkpoint on the job row,
    [last_hit_id], is written only by a run whose loop ended without
    error; the value written is the one the last read of the run
    returned, which is the empty read that ended the loop; no row of a
    record is left in the csv writer by then, and no read, write, flush
    or checkpoint update comes after the statement. *)
Theorem checkpoint_advance_and_persist :
  (∀ (n : nat) (st : RunState) (hits : Hits) (last : Z) (err : option error),
      Hits_List w n 5000 (checkpoint st) = (hits, last, err) →
      ExportJob.LastHitID (job (batch w n st).1) = Some last
      ∧ ∃ rest,
          trace (batch w n st).1
          = (trace st ++ [ListHits 5000 (checkpoint st); Checkpoint last]
             ++ rest)%list
          ∧ Forall (λ ev, is_write_or_flush ev = true) rest
          ∧ (hits ≠ [] → err = None →
             rest = ((CsvWrite <$> (encode <$> hits)) ++ [CsvFlush])%list)
          ∧ (hits = [] ∨ is_Some err → rest = []))
  ∧ (∀ (fuel : nat) (mailUser : bool) (r : RunState) (now : string)
       (rows : option Z) (sz h : option string) (last : option Z) (id : Z),
      Run w fuel e mailUser = Some r →
      UpdateFinished now rows sz h last id ∈ statements (trace r) →
      exportErr r = None
      ∧ (∃ (m : nat) (st0 : RunState) (final : Z),
           arrives w e m = Some st0
           ∧ Hits_List w m 5000 (checkpoint st0) = ([], final, None)
           ∧ last = Some final
           ∧ ExportJob.LastHitID (job r) = Some final)
      ∧ (pending r = [] ∨ pending r = [header])
      ∧ ∃ pre post,
          trace r
          = (pre ++ Exec (UpdateFinished now rows sz h last id) :: post)%list
          ∧ Forall (λ ev, data_effect ev = false) post).
Proof.
  split.
  - intros n st hits last err Hread. unfold batch, checkpoint in *.
    rewrite Hread.
    destruct (decide (length hits = 0%nat)) as [Hlen|Hlen].
    { split; [reflexivity|]. exists []. cbn [fst trace].
      repeat split; auto. intros Hne. by destruct hits. }
    destruct err as [err|].
    { split; [reflexivity|]. exists []. cbn [fst trace].
      repeat split; auto; discriminate. }
    assert (Forall (λ ev, is_write_or_flush ev = true)
              ((CsvWrite <$> (encode <$> hits)) ++ [CsvFlush])) as Hrest.
    { apply Forall_app. split; [|by repeat constructor].
      apply Forall_fmap, Forall_true. by intros row. }
    assert (hits = [] ∨ is_Some (@None error) →
            ((CsvWrite <$> (encode <$> hits)) ++ [CsvFlush])%list = [])
      as Hnone.
    { intros [->|[? [=]]]. by destruct Hlen. }
    destruct (csv_Error w n); cbn [fst job trace];
      (split; [reflexivity|]);
      exists ((CsvWrite <$> (encode <$> hits)) ++ [CsvFlush])%list;
      (split; [by rewrite <- !app_assoc|]); by repeat split.
  - intros fuel mailUser r now rows sz h last id Hrun Hin.
    unfold Run in Hrun.
    destruct (loop w fuel 0 (start e)) as [st|] eqn:Hloop; [|discriminate].
    injection Hrun as <-.
    destruct (loop_end w e fuel st Hloop) as (Htr & _ & _ & _ & Hpend).
    destruct (loop_last_pass w e fuel 0 (start e) st Hloop eq_refl)
      as (m & st0 & Harr & Hb).
    assert (∀ tr, statements (trace st ++ tr ++ deferred) = statements tr)
      as Hst.
    { intros tr. rewrite !statements_app, (statements_data _ Htr).
      simpl. by rewrite app_nil_r. }
    unfold finish in *.
    destruct (exportErr st) as [err|] eqn:Herr.
    { cbn [trace] in Hin. rewrite Hst in Hin. simpl in Hin.
      apply list_elem_of_singleton in Hin. discriminate. }
    destruct (batch_break_inv w m st0 st Hb Herr)
      as (final & Hread & Hlast & _).
    destruct (gzfp_Close w) as [e1|].
    { cbn [trace] in Hin. rewrite Hst in Hin. by apply elem_of_nil in Hin. }
    destruct (fp_Sync w) as [e2|].
    { cbn [trace] in Hin. rewrite Hst in Hin. by apply elem_of_nil in Hin. }
    destruct (fp_Close w) as [e3|].
    { cbn [trace] in Hin. rewrite Hst in Hin. by apply elem_of_nil in Hin. }
    destruct (zcrypto_HashFile w) as [digest [e4|]].
    { cbn [trace] in Hin. rewrite Hst in Hin. by apply elem_of_nil in Hin. }
    cbn [trace] in Hin. rewrite Hst in Hin.
    rewrite statements_app in Hin.
    assert (statements (if mailUser then [MailExportDone] else []) = [])
      as Hmail by (by destruct mailUser).
    rewrite Hmail, app_nil_r in Hin. simpl in Hin.
    apply list_elem_of_singleton in Hin. injection Hin as -> -> -> -> -> ->.
    cbn [exportErr job pending trace]. split; [reflexivity|].
    split.
    { exists m, st0, final. repeat split; auto. }
    split; [by apply Hpend|].
    exists (trace st ++ [GzClose; FpSync; FpStat; FpClose; HashFile])%list,
      ((if mailUser then [MailExportDone] else []) ++ deferred)%list.
    split.
    + rewrite <- !app_assoc. reflexivity.
    + destruct mailUser; by repeat constructor.
Qed.
End checkpoint_claim.

(** The amended C7 on three inputs: the pass whose flush fails, the
    pass of an empty read, and a run that persists its checkpoint. *)
Lemma checkpoint_advance_and_persist_witness :
  (ExportJob.LastHitID
     (job (batch (full_disk_world [sample_hit 1 (1, 255) "/a"]) 0
             (start (sample_job 9 0))).1) = Some 1
   ∧ ∃ rest,
       trace (batch (full_disk_world [sample_hit 1 (1, 255) "/a"]) 0
                (start (sample_job 9 0))).1
       = (trace (start (sample_job 9 0))
          ++ [ListHits 5000 (checkpoint (start (sample_job 9 0)));
              Checkpoint 1] ++ rest)%list
       ∧ Forall (λ ev, is_write_or_flush ev = true) rest
       ∧ ([sample_hit 1 (1, 255) "/a"] ≠ [] → @None error = None →
          rest = ((CsvWrite <$> (encode <$> [sample_hit 1 (1, 255) "/a"]))
                  ++ [CsvFlush])%list)
       ∧ ([sample_hit 1 (1, 255) "/a"] = [] ∨ is_Some (@None error) →
          rest = []))
  ∧ (ExportJob.LastHitID
       (job (batch empty_world 0 (start (sample_job 9 5))).1) = Some 5
     ∧ ∃ rest,
         trace (batch empty_world 0 (start (sample_job 9 5))).1
         = (trace (start (sample_job 9 5))
            ++ [ListHits 5000 (checkpoint (start (sample_job 9 5)));
                Checkpoint 5] ++ rest)%list
         ∧ Forall (λ ev, is_write_or_flush ev = true) rest
         ∧ (@nil (@Hit.t Reference.externals) ≠ [] → @None error = None →
            rest = ((CsvWrite
                       <$> (encode
                              <$> @nil (@Hit.t Reference.externals)))
                    ++ [CsvFlush])%list)
         ∧ (@nil (@Hit.t Reference.externals) = [] ∨ is_Some (@None error) →
            rest = []))
  ∧ ∃ r, Run (healthy_world [sample_hit 1 (1, 255) "/a"] 0 "digest"
                "2020-06-18 12:00:00" (λ _, "0.0")) 2 (sample_job 9 0) false
         = Some r
         ∧ exportErr r = None
         ∧ (∃ (m : nat) (st0 : RunState) (final : Z),
              arrives (healthy_world [sample_hit 1 (1, 255) "/a"] 0 "digest"
                         "2020-06-18 12:00:00" (λ _, "0.0"))
                (sample_job 9 0) m = Some st0
              ∧ Hits_List (healthy_world [sample_hit 1 (1, 255) "/a"] 0
                             "digest" "2020-06-18 12:00:00" (λ _, "0.0"))
                  m 5000 (checkpoint st0) = ([], final, None)
              ∧ Some 1 = Some final
              ∧ ExportJob.LastHitID (job r) = Some final)
         ∧ (pending r = [] ∨ pending r = [header])
         ∧ ∃ pre post,
             trace r
             = (pre ++ Exec (UpdateFinished "2020-06-18 12:00:00" (Some 1)
                               (Some "0.0") (Some "digest") (Some 1) 9)
                    :: post)%list
             ∧ Forall (λ ev, data_effect ev = false) post.
Proof.
  split; [|split].
  - exact (proj1 (checkpoint_advance_and_persist
                    (full_disk_world [sample_hit 1 (1, 255) "/a"])
                    (sample_job 9 0))
             0%nat (start (sample_job 9 0)) [sample_hit 1 (1, 255) "/a"] 1
             None eq_refl).
  - exact (proj1 (checkpoint_advance_and_persist empty_world (sample_job 9 5))
             0%nat (start (sample_job 9 5)) [] 5 None eq_refl).
  - eexists. split; [reflexivity|].
    eapply (proj2 (checkpoint_advance_and_persist
                     (healthy_world [sample_hit 1 (1, 255) "/a"] 0 "digest"
                        "2020-06-18 12:00:00" (λ _, "0.0"))
                     (sample_job 9 0))
              2%nat false _ "2020-06-18 12:00:00" (Some 1) (Some "0.0")
              (Some "digest") (Some 1) 9).
    + reflexivity.
    + apply list_elem_of_singleton. reflexivity.
Defined.

Section export_aborts.
Context `{Externals} (w : ExportWorld) (e : ExportJob.t).

(** A pass that ends the loop with an error makes the run take the abort
    path. *)
Lemma Run_abort (mailUser : bool) (n fuel : nat) (st st1 : RunState)
    (err : error) :
  arrives w e n = Some st →
  batch w n st = (st1, false) →
  exportErr st1 = Some err →
  (n < fuel)%nat →
  Run w fuel e mailUser = Some (finish w mailUser st1)
  ∧ statements (trace (finish w mailUser st1))
    = [UpdateError err (ExportJob.ID e)]
  ∧ artifact_removed (trace (finish w mailUser st1)) = true
  ∧ row_after (trace (finish w mailUser st1))
      (created_row (ExportJob.ID e))
    = mkExportsRow (ExportJob.ID e) None None None None None (Some err).
Proof.
  intros Harr Eb Herr Hfuel.
  destruct (arrives_at_top w e n st Harr) as (_ & Htr & Hid & _).
  destruct (batch_frame w n st) as (tr & Ht & Hd & Hid' & _).
  rewrite Eb in Ht, Hid'. simpl in Ht, Hid'.
  assert (loop w fuel 0 (start e) = Some st1) as Hloop.
  { replace fuel with (n + S (fuel - S n))%nat by lia.
    rewrite (loop_arrives w e n _ st Harr). simpl. by rewrite Eb. }
  assert (statements (trace (finish w mailUser st1))
          = [UpdateError err (ExportJob.ID e)]) as Hall.
  { rewrite (finish_abort w mailUser st1 err Herr). cbn [trace].
    rewrite statements_app, statements_data
      by (by rewrite Ht, forallb_app, Htr, Hd).
    simpl. by rewrite Hid', Hid. }
  split; [unfold Run; by rewrite Hloop|].
  split; [exact Hall|]. split.
  - rewrite (finish_abort w mailUser st1 err Herr). cbn [trace].
    rewrite removed_app. apply orb_true_iff. by right.
  - unfold row_after. rewrite Hall. apply row_after_error.
Qed.

(** When the flush of a batch fails, the run ends in that pass like
    after a failed read: the error is written to the job row and the
    artifact is removed.  The job in memory has by then counted the
    records of the batch in [NumRows] and moved [LastHitID] to the
    identity the read returned, although the batch did not reach the
    artifact. *)
Theorem Run_flush_error (mailUser : bool) (n fuel : nat) (st : RunState)
    (hits : Hits) (last : Z) (err : error) :
  arrives w e n = Some st →
  Hits_List w n 5000 (checkpoint st) = (hits, last, None) →
  hits ≠ [] →
  csv_Error w n = Some err →
  (n < fuel)%nat →
  ∃ r, Run w fuel e mailUser = Some r
       ∧ statements (trace r) = [UpdateError err (ExportJob.ID e)]
       ∧ artifact_removed (trace r) = true
       ∧ row_after (trace r) (created_row (ExportJob.ID e))
         = mkExportsRow (ExportJob.ID e) None None None None None (Some err)
       ∧ ExportJob.LastHitID (job r) = Some last
       ∧ ExportJob.NumRows (job r)
         = Some (default 0 (ExportJob.NumRows (job st))
                 + Z.of_nat (length hits)).
Proof.
  intros Harr Hread Hne Hflush Hfuel.
  destruct (batch w n st) as [st1 again] eqn:Eb.
  assert (again = false ∧ exportErr st1 = Some err
          ∧ ExportJob.LastHitID (job st1) = Some last
          ∧ ExportJob.NumRows (job st1)
            = Some (default 0 (ExportJob.NumRows (job st))
                    + Z.of_nat (length hits))) as (-> & Herr & Hlast & Hnum).
  { unfold batch, checkpoint in *. rewrite Hread, Hflush in Eb.
    destruct (decide (length hits = 0%nat)); [by destruct hits|].
    injection Eb as <- <-. by repeat split. }
  destruct (Run_abort mailUser n fuel st st1 err Harr Eb Herr Hfuel)
    as (Hrun & Hs & Hr & Hrow).
  destruct (finish_rows w mailUser st1) as (_ & _ & _ & Hn & Hl).
  exists (finish w mailUser st1).
  repeat split; auto; congruence.
Qed.

(** An export that finds no record: when the first read returns nothing
    and the file calls succeed, the run finishes with num_rows 0 and the
    checkpoint the read returned, but [c.Flush()] is never called, so
    the header stays in the csv writer and nothing is flushed into the
    artifact. *)
Theorem Run_no_records (mailUser : bool) (fuel : nat) (last : Z) :
  Hits_List w 0 5000 (ExportJob.StartFromHitID e) = ([], last, None) →
  gzfp_Close w = None → fp_Sync w = None → fp_Close w = None →
  (zcrypto_HashFile w).2 = None →
  (1 ≤ fuel)%nat →
  ∃ r, Run w fuel e mailUser = Some r
       ∧ flushed r = [] ∧ pending r = [header]
       ∧ (CsvFlush ∉ trace r)
       ∧ artifact_removed (trace r) = false
       ∧ statements (trace r)
         = [UpdateFinished (Now_Format w) (Some 0)
              (Some (match fp_Stat w with
                     | Some n => Sprintf_MiB w n
                     | None => "0"
                     end))
              (Some ((zcrypto_HashFile w).1)) (Some last) (ExportJob.ID e)].
Proof.
  intros Hread Hgz Hsync Hclose Hhash Hfuel.
  destruct fuel as [|fuel]; [lia|].
  eexists. split.
  { unfold Run. cbn [loop].
    rewrite (batch_empty w 0 (start e) last None) by exact Hread.
    reflexivity. }
  unfold finish. cbn [exportErr job trace flushed pending].
  rewrite Hgz, Hsync, Hclose.
  destruct (zcrypto_HashFile w) as [h err]. simpl in Hhash. subst err.
  cbn [exportErr job trace flushed pending fst].
  split; [reflexivity|]. split; [reflexivity|].
  split; [|split; [by destruct mailUser|by destruct mailUser]].
  unfold start, deferred. cbn [trace].
  destruct mailUser; simpl; absent_from_list.
Qed.
End export_aborts.

Section export_store.
Context `{Externals} (store : Hits) (bytes : Z) (digest now : string)
  (mib : Z → string).

Lemma ascending_filter (P : Hit.t → Prop) `{!∀ hit, Decision (P hit)}
    (l : Hits) :
  ascending l → ascending (filter P l).
Proof.
  induction l as [|x l IH]; [done|]. intros [Hx Hl].
  destruct (decide (P x)).
  - rewrite filter_cons_True by done. split; [|by apply IH].
    apply Forall_forall. intros y Hy%list_elem_of_filter.
    by apply (proj1 (Forall_forall _ _) Hx), Hy.
  - rewrite filter_cons_False by done. by apply IH.
Qed.

(** In an ascending list, the records beyond the last of the first [m]
    are the list without its first [m]. *)
Lemma ascending_after_take (l : Hits) (m : nat) (y : Hit.t) :
  ascending l → last (take m l) = Some y →
  filter (λ hit, Hit.ID y < Hit.ID hit) l = drop m l.
Proof.
  revert m. induction l as [|x l IH]; intros m Hasc Hlast.
  - by destruct m.
  - destruct Hasc as [Hx Hl]. destruct m as [|m]; [discriminate|].
    change (take (S m) (x :: l)) with (x :: take m l) in Hlast.
    rewrite last_cons in Hlast.
    destruct (last (take m l)) as [z|] eqn:Ez.
    + injection Hlast as ->.
      assert (y ∈ l) as Hy.
      { apply last_Some_elem_of in Ez.
        by apply (subseteq_take m l). }
      rewrite filter_cons_False.
      2: { apply (proj1 (Forall_forall _ _) Hx) in Hy. lia. }
      by apply IH.
    + injection Hlast as ->. apply last_None in Ez.
      rewrite filter_cons_False by lia. simpl.
      assert (filter (λ hit, Hit.ID y < Hit.ID hit) l = l) as ->.
      { clear -Hx. induction l as [|z l IHl]; [done|].
        apply Forall_cons in Hx as [Hz Hx].
        rewrite filter_cons_True by done. by rewrite IHl. }
      destruct m; [done|]. destruct l; [done|discriminate].
Qed.

(** The read after a batch of the records beyond [c] finds the records
    left over. *)
Lemma records_after_batch (c : Z) (m : nat) (y : Hit.t) :
  ascending store →
  last (take m (records_after store c)) = Some y →
  records_after store (Hit.ID y) = drop m (records_after store c).
Proof.
  intros Hasc Hlast. unfold records_after in *.
  rewrite <- (ascending_after_take _ m y);
    [|by apply ascending_filter|exact Hlast].
  symmetry. apply list_filter_filter_l.
  intros hit Hhit.
  assert (y ∈ filter (λ hit, c < Hit.ID hit) store) as Hy.
  { apply last_Some_elem_of in Hlast. by apply (subseteq_take m _). }
  apply list_elem_of_filter in Hy as [Hy _]. lia.
Qed.

(** The loop over an ascending store, from any pass: it ends without
    error once the records beyond the checkpoint are written, in order
    and counted, with the checkpoint at the last of them. *)
Lemma loop_store (k n : nat) (st : RunState) (count : Z) :
  ascending store →
  ExportJob.NumRows (job st) = Some count →
  (length (records_after store (checkpoint st)) ≤ k)%nat →
  ∃ st',
    loop (healthy_world store bytes digest now mib) (S k) n st = Some st'
    ∧ exportErr st' = None
    ∧ ExportJob.LastHitID (job st')
      = Some (default (checkpoint st)
                (Hit.ID <$> last (records_after store (checkpoint st))))
    ∧ ExportJob.NumRows (job st')
      = Some (count
              + Z.of_nat (length (records_after store (checkpoint st))))
    ∧ (flushed st' ++ pending st'
       = flushed st ++ pending st
         ++ (encode <$> records_after store (checkpoint st)))%list
    ∧ (records_after store (checkpoint st) = [] →
       flushed st' = flushed st)
    ∧ (records_after store (checkpoint st) ≠ [] → pending st' = []).
Proof.
  intros Hasc. revert n st count.
  induction k as [|k IH]; intros n st count Hcount Hlen.
  - destruct (records_after store (checkpoint st)) as [|x rem] eqn:Erem;
      [|simpl in Hlen; lia].
    eexists. split.
    { cbn [loop].
      rewrite (batch_empty _ n st (checkpoint st) None); [reflexivity|].
      cbn [Hits_List healthy_world]. unfold listAfter.
      fold (records_after store (checkpoint st)). by rewrite Erem. }
    cbn [exportErr job flushed pending ExportJob.LastHitID
         ExportJob.NumRows ExportJob.set_LastHitID].
    rewrite Hcount. repeat split; try done.
    + f_equal. simpl. lia.
    + by rewrite app_nil_r.
  - destruct (records_after store (checkpoint st)) as [|x rem] eqn:Erem.
    { eexists. split.
      { cbn [loop].
        rewrite (batch_empty _ n st (checkpoint st) None); [reflexivity|].
        cbn [Hits_List healthy_world]. unfold listAfter.
        fold (records_after store (checkpoint st)). by rewrite Erem. }
      cbn [exportErr job flushed pending ExportJob.LastHitID
           ExportJob.NumRows ExportJob.set_LastHitID].
      rewrite Hcount. repeat split; try done.
      + f_equal. simpl. lia.
      + by rewrite app_nil_r. }
    set (m := Z.to_nat 5000).
    assert (0 < m)%nat as Hm by (unfold m; lia).
    set (b := take m (x :: rem)).
    assert (∃ y, last b = Some y) as [y Hy].
    { apply last_is_Some. unfold b. by destruct m; [lia|]. }
    assert (b ≠ []) as Hb by (intros Hnil; by rewrite Hnil in Hy).
    set (st1 := mkRunState _
                  (ExportJob.set_NumRows
                     (Some (default 0 (ExportJob.NumRows (job st))
                            + Z.of_nat (length b)))
                     (ExportJob.set_LastHitID (Some (Hit.ID y)) (job st)))
                  None []
                  (flushed st ++ pending st ++ (encode <$> b))%list
                  ((trace st
                    ++ [ListHits 5000 (checkpoint st); Checkpoint (Hit.ID y)])
                   ++ (CsvWrite <$> (encode <$> b)) ++ [CsvFlush])%list).
    assert (batch (healthy_world store bytes digest now mib) n st
            = (st1, true)) as Eb.
    { apply batch_ok; [|exact Hb|reflexivity].
      cbn [Hits_List healthy_world]. unfold listAfter.
      fold (records_after store (checkpoint st)). rewrite Erem.
      fold m. fold b. by rewrite Hy. }
    assert (records_after store (checkpoint st1) = drop m (x :: rem))
      as Erem1.
    { change (checkpoint st1) with (Hit.ID y). rewrite <- Erem.
      apply records_after_batch; [exact Hasc|]. by rewrite Erem. }
    destruct (IH (S n) st1
                (default 0 (ExportJob.NumRows (job st)) + Z.of_nat (length b)))
      as (st' & Hloop & Herr & Hlast & Hnum & Hrows & Hflu & Hpend).
    { reflexivity. }
    { rewrite Erem1, length_drop. simpl in Hlen. simpl. lia. }
    exists st'. split.
    { change (loop _ (S (S k)) n st) with
        (let '(st0, again) :=
           batch (healthy_world store bytes digest now mib) n st in
         if again
         then loop (healthy_world store bytes digest now mib) (S k) (S n) st0
         else Some st0).
      by rewrite Eb. }
    rewrite Erem1 in Hlast, Hnum, Hrows, Hflu, Hpend.
    change (checkpoint st1) with (Hit.ID y) in Hlast.
    assert (x :: rem = b ++ drop m (x :: rem))%list as Hsplit
      by (unfold b; by rewrite take_drop).
    split; [exact Herr|]. split.
    { rewrite Hlast. f_equal. rewrite Hsplit at 2. rewrite last_app.
      destruct (last (drop m (x :: rem))); [done|]. by rewrite Hy. }
    split.
    { rewrite Hnum, Hcount. f_equal. simpl default.
      rewrite Hsplit at 2. rewrite length_app. lia. }
    split.
    { rewrite Hrows. cbn [flushed pending st1].
      rewrite Hsplit at 2. rewrite fmap_app, <- !app_assoc. done. }
    split; [done|].
    intros _. destruct (decide (drop m (x :: rem) = [])) as [Hd|Hd].
    + rewrite Hd in Hrows. rewrite (Hflu Hd) in Hrows.
      apply app_inv_head in Hrows. rewrite Hrows. reflexivity.
    + by apply Hpend.
Qed.
Lemma Run_store_result (e : ExportJob.t) (mailUser : bool) :
  ascending store →
  ∃ r, Run (healthy_world store bytes digest now mib) (S (length store)) e
         mailUser = Some r
       ∧ flushed r
         = match records_after store (ExportJob.StartFromHitID e) with
           | [] => []
           | _ => header
                  :: (encode <$>
                      records_after store (ExportJob.StartFromHitID e))
           end
       ∧ statements (trace r)
         = [UpdateFinished now
              (Some (Z.of_nat
                       (length (records_after store
                                  (ExportJob.StartFromHitID e)))))
              (Some (mib bytes)) (Some digest)
              (Some (default (ExportJob.StartFromHitID e)
                       (Hit.ID <$>
                        last (records_after store
                                (ExportJob.StartFromHitID e)))))
              (ExportJob.ID e)]
       ∧ artifact_removed (trace r) = false.
Proof.
  intros Hasc.
  destruct (loop_store (length store) 0 (start e) 0 Hasc eq_refl)
    as (st & Hloop & Herr & Hlast & Hnum & Hrows & Hflu & Hpend).
  { apply length_filter. }
  change (checkpoint (start e)) with (ExportJob.StartFromHitID e) in *.
  destruct (loop_end _ e _ st Hloop) as (Htr & Hid & _).
  exists (finish (healthy_world store bytes digest now mib) mailUser st).
  split; [unfold Run; by rewrite Hloop|].
  split.
  { destruct (finish_rows (healthy_world store bytes digest now mib)
                mailUser st) as (-> & _).
    destruct (records_after store (ExportJob.StartFromHitID e)) as [|x rem].
    - by apply Hflu.
    - rewrite (Hpend ltac:(done)), app_nil_r in Hrows. exact Hrows. }
  unfold finish. rewrite Herr. cbn -[statements artifact_removed].
  rewrite !statements_app, !removed_app.
  rewrite (statements_data _ Htr), (removed_data _ Htr).
  rewrite Hnum, Hlast, Hid. by destruct mailUser.
Qed.

(** Exporting an ascending store in a world where every call succeeds:
    given one pass more than the store has records, the run ends; the
    artifact holds the header and the rows of all records beyond
    [e.StartFromHitID], in the order of the store (nothing at all when
    there is no such record), and the job row ends with their number
    as num_rows, the identity of the last of them as last_hit_id
    ([e.StartFromHitID] itself when there is none), the size, the
    digest and no error. *)
Theorem Run_exports_store (e : ExportJob.t) (mailUser : bool) :
  ascending store →
  ∃ r, Run (healthy_world store bytes digest now mib) (S (length store)) e
         mailUser = Some r
       ∧ flushed r
         = match records_after store (ExportJob.StartFromHitID e) with
           | [] => []
           | _ => header
                  :: (encode <$>
                      records_after store (ExportJob.StartFromHitID e))
           end
       ∧ row_after (trace r) (created_row (ExportJob.ID e))
         = mkExportsRow (ExportJob.ID e) (Some now)
             (Some (Z.of_nat
                      (length (records_after store
                                 (ExportJob.StartFromHitID e)))))
             (Some (mib bytes)) (Some digest)
             (Some (default (ExportJob.StartFromHitID e)
                      (Hit.ID <$>
                       last (records_after store
                               (ExportJob.StartFromHitID e)))))
             None
       ∧ artifact_removed (trace r) = false.
Proof.
  intros Hasc.
  destruct (Run_store_result e mailUser Hasc) as (r & Hrun & Hf & Hs & Hr).
  exists r. split; [exact Hrun|]. split; [exact Hf|]. split; [|exact Hr].
  unfold row_after. rewrite Hs. simpl.
  by destruct (decide (ExportJob.ID e = ExportJob.ID e)).
Qed.
End export_store.

Section export_resume.
Context `{Externals}.

Lemma ascending_app (l1 l2 : Hits) :
  ascending (l1 ++ l2) →
  ascending l1
  ∧ ∀ a b, a ∈ l1 → b ∈ l2 → Hit.ID a < Hit.ID b.
Proof.
  induction l1 as [|x l1 IH]; simpl.
  - intros _. split; [done|]. intros a b Ha. by apply elem_of_nil in Ha.
  - intros [Hx Hl]. apply Forall_app in Hx as [Hx1 Hx2].
    destruct (IH Hl) as [Hasc Hlt]. split; [by split|].
    intros a b [->|Ha]%elem_of_cons Hb.
    + by apply (proj1 (Forall_forall _ _) Hx2).
    + by apply Hlt.
Qed.

Lemma filter_all (P : Hit.t → Prop) `{!∀ hit, Decision (P hit)} (l : Hits) :
  (∀ hit, hit ∈ l → P hit) → filter P l = l.
Proof.
  induction l as [|x l IH]; intros Hall; [done|].
  rewrite filter_cons_True by (apply Hall; by left).
  f_equal. apply IH. intros hit Hin. apply Hall. by right.
Qed.

(** The records beyond [after] in a store that has grown are those of
    the store as it was, followed by those beyond the last of them in
    the store as it is. *)
Lemma records_after_resume (s1 s2 : Hits) (after : Z) :
  ascending (s1 ++ s2) →
  records_after (s1 ++ s2) after
  = (records_after s1 after
     ++ records_after (s1 ++ s2)
          (default after (Hit.ID <$> last (records_after s1 after))))%list.
Proof.
  intros Hasc. destruct (ascending_app s1 s2 Hasc) as [Hasc1 Hlt].
  destruct (last (records_after s1 after)) as [y|] eqn:Hlast.
  2: { apply last_None in Hlast. by rewrite Hlast. }
  simpl. unfold records_after in *. rewrite !filter_app.
  assert (y ∈ filter (λ hit, after < Hit.ID hit) s1) as Hy
    by (by apply last_Some_elem_of).
  apply list_elem_of_filter in Hy as [Hy Hy1].
  assert (filter (λ hit, Hit.ID y < Hit.ID hit) s1 = []) as ->.
  { rewrite <- (list_filter_filter_l _ (λ hit, after < Hit.ID hit))
      by (intros hit; lia).
    rewrite (ascending_after_take _
               (length (filter (λ hit, after < Hit.ID hit) s1)) y).
    - by rewrite drop_all.
    - by apply ascending_filter.
    - by rewrite take_ge. }
  assert (filter (λ hit, Hit.ID y < Hit.ID hit) s2 = s2) as ->.
  { apply filter_all. intros b Hb. apply (Hlt y b Hy1 Hb). }
  assert (filter (λ hit, after < Hit.ID hit) s2 = s2) as ->.
  { apply filter_all. intros b Hb. pose proof (Hlt y b Hy1 Hb). lia. }
  reflexivity.
Qed.
End export_resume.

Lemma row_after_finished (id : Z) (now : string) (rows : option Z)
    (sz h : option string) (last : option Z) :
  foldl apply_stmt (created_row id) [UpdateFinished now rows sz h last id]
  = mkExportsRow id (Some now) rows sz h last None.
Proof. simpl. by destruct (decide (id = id)). Qed.

(** Resuming an export.  A first run exports a store from
    [e.StartFromHitID]; the store grows; a second run starts from the
    last_hit_id the first run wrote to its job row.  The record rows of
    the two artifacts, one after the other, are the record rows of a
    single run over the grown store from [e.StartFromHitID]: no record
    is lost and none is exported twice. *)
Theorem Run_resumes `{Externals} (s1 s2 : Hits) (e e2 : ExportJob.t)
    (mailUser : bool) (bytes : Z) (digest now : string) (mib : Z → string) :
  ascending (s1 ++ s2) →
  ExportJob.StartFromHitID e2
  = default (ExportJob.StartFromHitID e)
      (Hit.ID <$> last (records_after s1 (ExportJob.StartFromHitID e))) →
  ∃ r1 r2 r,
    Run (healthy_world s1 bytes digest now mib) (S (length s1)) e mailUser
    = Some r1
    ∧ Run (healthy_world (s1 ++ s2) bytes digest now mib)
        (S (length (s1 ++ s2))) e2 mailUser = Some r2
    ∧ Run (healthy_world (s1 ++ s2) bytes digest now mib)
        (S (length (s1 ++ s2))) e mailUser = Some r
    ∧ col_last_hit_id (row_after (trace r1) (created_row (ExportJob.ID e)))
      = Some (ExportJob.StartFromHitID e2)
    ∧ (drop 1 (flushed r1) ++ drop 1 (flushed r2))%list = drop 1 (flushed r).
Proof.
  intros Hasc Hstart.
  destruct (ascending_app s1 s2 Hasc) as [Hasc1 _].
  destruct (Run_store_result s1 bytes digest now mib e mailUser Hasc1)
    as (r1 & Hrun1 & Hf1 & Hs1 & _).
  destruct (Run_store_result (s1 ++ s2) bytes digest now mib e2 mailUser Hasc)
    as (r2 & Hrun2 & Hf2 & _).
  destruct (Run_store_result (s1 ++ s2) bytes digest now mib e mailUser Hasc)
    as (r & Hrun & Hf & _).
  exists r1, r2, r.
  split; [exact Hrun1|]. split; [exact Hrun2|]. split; [exact Hrun|].
  split.
  { unfold row_after. rewrite Hs1, row_after_finished. simpl.
    by rewrite Hstart. }
  assert (∀ recs : Hits,
            drop 1 (match recs with
                    | [] => []
                    | _ => header :: (encode <$> recs)
                    end) = encode <$> recs) as Hdrop
    by (by intros [|x recs]).
  rewrite Hf1, Hf2, Hf, !Hdrop, Hstart, <- fmap_app.
  by rewrite <- records_after_resume.
Qed.

(** * Further properties of the import engine *)

Section import_more.
Context `{Externals} (w : ImportWorld) (siteID : Z).

Lemma import_rows_before_EOF (rows : list ReadResult) (st : ImportState) :
  import_rows w siteID rows st = import_rows w siteID (before_EOF rows) st.
Proof.
  revert st. induction rows as [|r rows IH]; intros st; [done|].
  destruct r as [line|err]; [apply IH|].
  destruct err; try apply IH. reflexivity.
Qed.

Lemma import_rows_cons (r : ReadResult) (rows : list ReadResult)
    (st : ImportState) :
  r ≠ inr EOF →
  import_rows w siteID (r :: rows) st
  = import_rows w siteID rows (import_line w siteID r st).
Proof.
  intros Hr. destruct r as [line|err]; [reflexivity|].
  by destruct err.
Qed.

Lemma import_rows_app (rows1 rows2 : list ReadResult) (st : ImportState) :
  Forall (λ r, r ≠ inr EOF) rows1 →
  import_rows w siteID (rows1 ++ rows2) st
  = import_rows w siteID rows2 (import_rows w siteID rows1 st).
Proof.
  intros Hrows. revert st.
  induction Hrows as [|r rows1 Hr _ IH]; intros st; [done|].
  change ((r :: rows1) ++ rows2)%list with (r :: (rows1 ++ rows2))%list.
  by rewrite !import_rows_cons, IH.
Qed.

(** A result that decodes is ingested, one that does not is skipped. *)
Lemma import_line_decodes (r : ReadResult) (st : ImportState) :
  if decodes siteID r
  then ∃ row hit, import_line w siteID r st = ingest w row hit st
  else ∃ err, import_line w siteID r st = skip err st.
Proof.
  unfold decodes, import_line. destruct r as [line|err]; [|by eexists].
  destruct (ExportRow.Read line) as [row|err]; [|by eexists].
  destruct (ExportRow.Hit row siteID) as [hit [err|]]; simpl; by eauto.
Qed.

Lemma ingest_frame (row : ExportRow.t) (hit : Hit.t) (st : ImportState) :
  n (ingest w row hit st) = S (n st)
  ∧ errs (ingest w row hit st) = errs st
  ∧ length (memstore (ingest w row hit st)) = S (length (memstore st))
  ∧ mails (ingest w row hit st) = mails st
  ∧ wiped (ingest w row hit st) = wiped st
  ∧ sessions st ⊆ sessions (ingest w row hit st)
  ∧ (minted (ingest w row hit st) + size (sessions st)
     = minted st + size (sessions (ingest w row hit st)))%nat.
Proof.
  unfold ingest.
  destruct (sessions st !! ExportRow.Session row) as [s|] eqn:Es;
    cbn [n errs memstore mails wiped sessions minted];
    rewrite length_app; simpl.
  - repeat split; auto; lia.
  - repeat split; auto; try lia.
    + by apply insert_subseteq.
    + rewrite map_size_insert_None by exact Es. lia.
Qed.

Lemma skip_frame (err : error) (st : ImportState) :
  n (skip err st) = n st
  ∧ nerrs (errs (skip err st)) = S (nerrs (errs st))
  ∧ memstore (skip err st) = memstore st
  ∧ mails (skip err st) = mails st
  ∧ wiped (skip err st) = wiped st
  ∧ sessions (skip err st) = sessions st
  ∧ minted (skip err st) = minted st.
Proof. by repeat split. Qed.

(** Every row the loop of [Import] reads is either ingested or counted
    as a fault: the rows that get through [Read] and [Hit] are added to
    the memstore and to [n], one hit each, and every other row adds one
    to the count of the error group and leaves the memstore alone.  The
    loop sends no mail. *)
Lemma import_rows_frame (rows : list ReadResult) (st : ImportState) :
  n (import_rows w siteID rows st)
  = (n st + decoded_count siteID rows)%nat
  ∧ nerrs (errs (import_rows w siteID rows st))
    = (nerrs (errs st) + fault_count siteID rows)%nat
  ∧ length (memstore (import_rows w siteID rows st))
    = (length (memstore st) + decoded_count siteID rows)%nat
  ∧ mails (import_rows w siteID rows st) = mails st
  ∧ wiped (import_rows w siteID rows st) = wiped st.
Proof.
  rewrite import_rows_before_EOF. unfold decoded_count, fault_count.
  assert (Forall (λ r, r ≠ inr EOF) (before_EOF rows)) as Hrows.
  { induction rows as [|r rows IH]; [constructor|].
    destruct r as [line|err]; [by constructor|].
    destruct err; by constructor. }
  revert st. induction Hrows as [|r rows' Hr _ IH]; intros st.
  - simpl. repeat split; lia.
  - rewrite import_rows_cons by exact Hr.
    destruct (IH (import_line w siteID r st)) as (-> & -> & -> & -> & ->).
    pose proof (import_line_decodes r st) as Hline. simpl.
    destruct (decodes siteID r); simpl.
    + destruct Hline as (row & hit & ->).
      destruct (ingest_frame row hit st) as (-> & -> & -> & -> & -> & _).
      repeat split; lia.
    + destruct Hline as (err & ->).
      destruct (skip_frame err st) as (-> & -> & -> & -> & -> & _).
      repeat split; lia.
Qed.

(** The session table only grows during an import: a token keeps the
    identity it has, and [Memstore.SessionID()] is called once for each
    token that enters the table. *)
Lemma import_rows_table (rows : list ReadResult) (st : ImportState) :
  sessions st ⊆ sessions (import_rows w siteID rows st)
  ∧ (minted (import_rows w siteID rows st) + size (sessions st)
     = minted st + size (sessions (import_rows w siteID rows st)))%nat.
Proof.
  revert st. induction rows as [|r rows IH]; intros st; [done|].
  assert (sessions st ⊆ sessions (import_line w siteID r st)
          ∧ (minted (import_line w siteID r st) + size (sessions st)
             = minted st + size (sessions (import_line w siteID r st)))%nat)
    as [Hsub Hsize].
  { pose proof (import_line_decodes r st) as Hline.
    destruct (decodes siteID r).
    - destruct Hline as (row & hit & ->).
      by destruct (ingest_frame row hit st) as (_ & _ & _ & _ & _ & ? & ?).
    - by destruct Hline as (err & ->). }
  assert (r = inr EOF ∨ r ≠ inr EOF) as [->|Hr].
  { destruct r as [line|err]; [by right|]. destruct err; by (left + right). }
  { done. }
  rewrite import_rows_cons by exact Hr.
  destruct (IH (import_line w siteID r st)) as [Hsub' Hsize'].
  split; [by etrans|]. lia.
Qed.

(** Once a token is in the session table, every later row that carries
    it is stored with the identity of the table: of the rows of one
    token, all but the first (which is stored with the zero session) get
    the identity minted at the first. *)
Theorem later_rows_share_session (line0 line : Line) (row0 row : ExportRow.t)
    (hit0 hit : Hit.t) (rows1 : list ReadResult) (st : ImportState) :
  sessions st !! ExportRow.Session row0 = None →
  ExportRow.Read line0 = inl row0 →
  ExportRow.Hit row0 siteID = (hit0, None) →
  Forall (λ r, r ≠ inr EOF) rows1 →
  ExportRow.Read line = inl row →
  ExportRow.Session row = ExportRow.Session row0 →
  ExportRow.Hit row siteID = (hit, None) →
  memstore (import_rows w siteID (inl line0 :: rows1 ++ [inl line]) st)
  = (memstore (import_rows w siteID (inl line0 :: rows1) st)
     ++ [with_Session hit (SessionID w (minted st))])%list.
Proof.
  intros Hnew Hread0 Hhit0 Hrows Hread Htoken Hhit.
  rewrite !import_rows_cons by discriminate.
  rewrite import_rows_app by exact Hrows.
  rewrite (import_line_ok w siteID line0 row0 hit0 st Hread0 Hhit0).
  rewrite (ingest_first_use w row0 hit0 st Hnew).
  set (st1 := mkImportState _ _ _ _ _ _ _ _).
  set (st2 := import_rows w siteID rows1 st1).
  change (import_rows w siteID [inl line] st2)
    with (import_line w siteID (inl line) st2).
  rewrite (import_line_ok w siteID line row hit st2 Hread Hhit).
  rewrite (ingest_later_use w row hit st2 (SessionID w (minted st)));
    [reflexivity|].
  destruct (import_rows_table rows1 st1) as [Hsub _].
  apply (lookup_weaken (sessions st1)); [|exact Hsub].
  rewrite Htoken. apply lookup_insert_eq.
Qed.

(** What one pass of the loop does with a result, by its verdict. *)
Lemma import_line_verdict (r : ReadResult) (st : ImportState) :
  match verdict siteID r with
  | inl hit =>
      ∃ row s,
        import_line w siteID r st = ingest w row hit st
        ∧ memstore (ingest w row hit st)
          = (memstore st ++ [with_Session hit s])%list
  | inr err => import_line w siteID r st = skip err st
  end.
Proof.
  unfold verdict, import_line. destruct r as [line|err]; [|reflexivity].
  destruct (ExportRow.Read line) as [row|err]; [|reflexivity].
  destruct (ExportRow.Hit row siteID) as [hit [err|]]; [reflexivity|].
  exists row. unfold ingest.
  destruct (sessions st !! ExportRow.Session row); by eexists.
Qed.

Lemma before_EOF_no_EOF (rows : list ReadResult) :
  Forall (λ r, r ≠ inr EOF) (before_EOF rows).
Proof.
  induction rows as [|r rows IH]; [constructor|].
  destruct r as [line|err]; [by constructor|].
  destruct err; by constructor.
Qed.

Lemma before_EOF_all (rows : list ReadResult) :
  Forall (λ r, r ≠ inr EOF) rows → before_EOF rows = rows.
Proof.
  induction 1 as [|r rows Hr _ IH]; [reflexivity|].
  destruct r as [line|err]; simpl; [by rewrite IH|].
  destruct err; simpl; by rewrite ?IH.
Qed.

Lemma nerrs_Append_all (errors : list error) (g : Group) :
  nerrs (Group_Append_all errors g) = (nerrs g + length errors)%nat.
Proof.
  unfold Group_Append_all. revert g.
  induction errors as [|err errors IH]; intros g; simpl; [lia|].
  rewrite IH. simpl. lia.
Qed.

(** What the loop of [Import] leaves behind, part by part: the hits
    decoded from the results before [io.EOF] are appended to the
    memstore in the order of the input, changed in the session only;
    the errors of the other results are appended to the error group,
    in order; [n] counts the hits. *)
Lemma import_rows_content (rows : list ReadResult) (st : ImportState) :
  ∃ new,
    memstore (import_rows w siteID rows st) = (memstore st ++ new)%list
    ∧ without_Session <$> new
      = without_Session <$> decoded_hits siteID rows
    ∧ n (import_rows w siteID rows st) = (n st + length new)%nat
    ∧ errs (import_rows w siteID rows st)
      = Group_Append_all (import_faults siteID rows) (errs st).
Proof.
  rewrite import_rows_before_EOF. unfold decoded_hits, import_faults.
  pose proof (before_EOF_no_EOF rows) as Hrows.
  revert st. induction Hrows as [|r rows' Hr _ IH]; intros st.
  - exists []. simpl. rewrite app_nil_r. repeat split. lia.
  - rewrite import_rows_cons by exact Hr.
    destruct (IH (import_line w siteID r st)) as (new & Hmem & Hnew & Hn & He).
    pose proof (import_line_verdict r st) as Hline.
    cbn [omap list_omap].
    destruct (verdict siteID r) as [hit|err].
    + destruct Hline as (row & s & Hline & Hs).
      destruct (ingest_frame row hit st) as (Hn1 & He1 & _).
      exists (with_Session hit s :: new).
      rewrite Hmem, Hn, He, Hline, Hs, Hn1, He1, <- app_assoc.
      split; [reflexivity|]. split; [by rewrite !fmap_cons, Hnew|].
      split; [simpl; lia|reflexivity].
    + exists new. rewrite Hmem, Hn, He, Hline. by repeat split.
Qed.

(** Every result the loop of [Import] reads before [io.EOF] is either
    ingested or reported as a fault, never both and never neither.  The
    hits of the results that get through [Read] and [Hit] are appended
    to the memstore, in the order of the input and as decoded but for
    the session, and counted in [n]; the hits that were in the memstore
    stay in front of them, untouched.  The errors of the other results
    are appended to the error group, in order, and counted by it.  The
    loop sends no mail. *)
Theorem import_rows_counts (rows : list ReadResult) (st : ImportState) :
  ∃ new,
    memstore (import_rows w siteID rows st) = (memstore st ++ new)%list
    ∧ without_Session <$> new
      = without_Session <$> decoded_hits siteID rows
    ∧ n (import_rows w siteID rows st) = (n st + length new)%nat
    ∧ errs (import_rows w siteID rows st)
      = Group_Append_all (import_faults siteID rows) (errs st)
    ∧ nerrs (errs (import_rows w siteID rows st))
      = (nerrs (errs st) + length (import_faults siteID rows))%nat
    ∧ (length new + length (import_faults siteID rows)
       = length (before_EOF rows))%nat
    ∧ mails (import_rows w siteID rows st) = mails st.
Proof.
  destruct (import_rows_content rows st) as (new & Hmem & Hnew & Hn & He).
  destruct (import_rows_frame rows st) as (_ & _ & _ & Hm & _).
  exists new. split; [exact Hmem|]. split; [exact Hnew|].
  split; [exact Hn|]. split; [exact He|].
  split; [by rewrite He, nerrs_Append_all|]. split; [|exact Hm].
  apply (f_equal length) in Hnew. rewrite !length_fmap in Hnew.
  rewrite Hnew. unfold decoded_hits, import_faults.
  induction (before_EOF rows) as [|r l IH]; [reflexivity|].
  cbn [omap list_omap]. destruct (verdict siteID r); simpl; lia.
Qed.

(** The session table only grows during an import: a token keeps the
    identity it has, and [Memstore.SessionID()] is called once for each
    token that enters the table. *)
Theorem import_rows_sessions (rows : list ReadResult) (st : ImportState) :
  (∀ token s, sessions st !! token = Some s →
              sessions (import_rows w siteID rows st) !! token = Some s)
  ∧ (minted (import_rows w siteID rows st) + size (sessions st)
     = minted st + size (sessions (import_rows w siteID rows st)))%nat
  ∧ (size (sessions st) ≤ size (sessions (import_rows w siteID rows st)))%nat.
Proof.
  destruct (import_rows_table rows st) as [Hsub Hsize].
  split; [|split; [exact Hsize|]].
  - intros token s Hs. by apply (lookup_weaken (sessions st)).
  - by apply map_subseteq_size.
Qed.

(** A fatal end of [Import] leaves the memstore alone.  When [Import]
    panics, the state is the one it was called in; when it returns
    after sending the import-error mail, nothing was ingested: the
    memstore, the row count, the session table and the error group are
    as at the call, and that mail is the only one sent. *)
Theorem Import_fatal_ingests_nothing (stream : list ReadResult)
    (replace email : bool) (st : ImportState) :
  (∀ st', Import w siteID stream replace email st = Panicked st' → st' = st)
  ∧ (∀ st' report,
       Import w siteID stream replace email st = Returned st' →
       ImportErrorMail report ∈ mails st' →
       ImportErrorMail report ∉ mails st →
       memstore st' = memstore st ∧ n st' = n st
       ∧ sessions st' = sessions st ∧ errs st' = errs st
       ∧ mails st' = (mails st ++ [ImportErrorMail report])%list).
Proof.
  assert (∀ x st' report,
            Returned (importError x st) = Returned st' →
            ImportErrorMail report ∈ mails st' →
            ImportErrorMail report ∉ mails st →
            memstore st' = memstore st ∧ n st' = n st
            ∧ sessions st' = sessions st ∧ errs st' = errs st
            ∧ mails st' = (mails st ++ [ImportErrorMail report])%list)
    as Hfatal.
  { intros x st' report [= <-] Hin Hnot. simpl in Hin.
    apply elem_of_app in Hin as [Hin|Hin]; [contradiction|].
    apply list_elem_of_singleton in Hin. injection Hin as ->.
    by repeat split. }
  unfold Import.
  destruct stream as [|[header|err] rows].
  { split; [discriminate|apply Hfatal]. }
  2: { split; [discriminate|apply Hfatal]. }
  destruct header as [|cell cells].
  { split; [by intros st' [= <-]|discriminate]. }
  destruct (negb (HasPrefix cell ExportVersion)).
  { destruct (slice_to cell 1).
    - split; [discriminate|apply Hfatal].
    - split; [by intros st' [= <-]|discriminate]. }
  destruct (if replace then DeleteAll w else None) as [err|].
  { split; [discriminate|apply Hfatal]. }
  split; [discriminate|].
  intros st' report [= <-] Hin Hnot. exfalso. apply Hnot.
  set (st0 := if replace then set_wiped st else st) in *.
  assert (mails st0 = mails st) as Hst0 by (unfold st0; by destruct replace).
  destruct (import_rows_frame rows st0) as (_ & _ & _ & Hmails & _).
  unfold import_done in Hin. destruct email; simpl in Hin.
  - apply elem_of_app in Hin as [Hin|Hin].
    + by rewrite Hmails, Hst0 in Hin.
    + apply list_elem_of_singleton in Hin. discriminate Hin.
  - by rewrite Hmails, Hst0 in Hin.
Qed.

(** The loop on a reader agrees with the loop on the list of the
    results the reader gives before [io.EOF]. *)
Lemma read_loop_reads (reader : Reader) (len k fuel : nat)
    (st : ImportState) :
  Forall (λ r, r ≠ inr EOF) (reads reader k len) →
  reader (k + len)%nat = inr EOF →
  (len < fuel)%nat →
  read_loop w siteID reader fuel k st
  = Some (import_rows w siteID (reads reader k len) st).
Proof.
  revert k fuel st. induction len as [|len IH]; intros k fuel st Hrows HEOF Hf.
  - destruct fuel as [|fuel]; [lia|]. rewrite Nat.add_0_r in HEOF.
    simpl. by rewrite HEOF.
  - destruct fuel as [|fuel]; [lia|].
    change (reads reader k (S len))
      with (reader k :: reads reader (S k) len) in *.
    apply Forall_cons in Hrows as [Hr Hrows].
    rewrite import_rows_cons by exact Hr.
    rewrite <- (IH (S k) fuel (import_line w siteID (reader k) st));
      [|exact Hrows|rewrite <- HEOF; f_equal; lia|lia].
    simpl. destruct (reader k) as [line|err]; [reflexivity|].
    destruct err; try reflexivity. by destruct Hr.
Qed.

(** The loop ends when the reader gets to [io.EOF]. *)
Lemma read_loop_ends (reader : Reader) (len k fuel : nat)
    (st : ImportState) :
  reader (k + len)%nat = inr EOF →
  (len < fuel)%nat →
  is_Some (read_loop w siteID reader fuel k st).
Proof.
  revert k fuel st. induction len as [|len IH]; intros k fuel st HEOF Hf.
  - destruct fuel as [|fuel]; [lia|]. rewrite Nat.add_0_r in HEOF.
    simpl. by rewrite HEOF.
  - destruct fuel as [|fuel]; [lia|]. simpl.
    assert (is_Some (read_loop w siteID reader fuel (S k)
                       (import_line w siteID (reader k) st))) as Hnext.
    { apply IH; [|lia]. rewrite <- HEOF. f_equal. lia. }
    destruct (reader k) as [line|err]; [exact Hnext|].
    destruct err; by eauto.
Qed.

(** The loop ends only at [io.EOF]. *)
Lemma read_loop_ended (reader : Reader) (fuel k : nat)
    (st st' : ImportState) :
  read_loop w siteID reader fuel k st = Some st' →
  ∃ len, reader (k + len)%nat = inr EOF.
Proof.
  revert k st. induction fuel as [|fuel IH]; intros k st Hloop;
    [discriminate|].
  simpl in Hloop.
  assert (reader k = inr EOF
          ∨ read_loop w siteID reader fuel (S k)
              (import_line w siteID (reader k) st) = Some st') as [HEOF|Hnext].
  { destruct (reader k) as [line|err]; [by right|].
    destruct err; by (left + right). }
  - exists 0%nat. by rewrite Nat.add_0_r.
  - destruct (IH _ _ Hnext) as [len Hlen]. exists (S len).
    rewrite <- Hlen. f_equal. lia.
Qed.

(** The part of [Import] after a header of the right version and a
    wipe that went through, if asked for. *)
Lemma Import_from_loop (reader : Reader) (cell : string) (cells : Line)
    (fuel : nat) (replace email : bool) (st : ImportState) :
  reader 0%nat = inl (cell :: cells) →
  HasPrefix cell ExportVersion = true →
  (replace = true → DeleteAll w = None) →
  Import_from w siteID reader fuel replace email st
  = (λ st', Returned (import_done email st'))
      <$> read_loop w siteID reader fuel 1
            (if replace then set_wiped st else st).
Proof.
  intros Hheader Hprefix Hwipe. unfold Import_from.
  rewrite Hheader, Hprefix. cbn [negb].
  assert ((if replace then DeleteAll w else None) = None) as ->.
  { destruct replace; [by apply Hwipe|done]. }
  reflexivity.
Qed.

(** An import whose header starts with the version tag, whose wipe,
    when asked for, succeeds, and whose reader gets to [io.EOF] after
    [len] more results: [Import] returns (any fuel above [len] is
    enough).  The hits of the results that decode are appended to the
    memstore, in order and as decoded but for the session, and counted
    in [n]; the errors of the other results are appended to the error
    group; the site is wiped only when [replace] is set; and the only
    mail is the import-done mail, sent when [email] is set, with the
    final row count and error group. *)
Theorem Import_report (reader : Reader) (cell : string) (cells : Line)
    (len fuel : nat) (replace email : bool) (st : ImportState) :
  reader 0%nat = inl (cell :: cells) →
  HasPrefix cell ExportVersion = true →
  (replace = true → DeleteAll w = None) →
  Forall (λ r, r ≠ inr EOF) (reads reader 1 len) →
  reader (S len) = inr EOF →
  (len < fuel)%nat →
  ∃ st' new,
    Import_from w siteID reader fuel replace email st = Some (Returned st')
    ∧ memstore st' = (memstore st ++ new)%list
    ∧ without_Session <$> new
      = without_Session <$> decoded_hits siteID (reads reader 1 len)
    ∧ n st' = (n st + length new)%nat
    ∧ errs st'
      = Group_Append_all (import_faults siteID (reads reader 1 len)) (errs st)
    ∧ wiped st' = (replace || wiped st)
    ∧ mails st'
      = (mails st
         ++ if email then [ImportDoneMail (n st') (errs st')] else [])%list.
Proof.
  intros Hheader Hprefix Hwipe Hrows HEOF Hfuel.
  rewrite (Import_from_loop reader cell cells fuel replace email st
             Hheader Hprefix Hwipe).
  set (st0 := if replace then set_wiped st else st).
  assert (mails st0 = mails st ∧ n st0 = n st ∧ errs st0 = errs st
          ∧ memstore st0 = memstore st
          ∧ wiped st0 = (replace || wiped st))
    as (Hm0 & Hn0 & He0 & Hs0 & Hw0) by (unfold st0; by destruct replace).
  rewrite (read_loop_reads reader len 1 fuel st0 Hrows HEOF Hfuel).
  destruct (import_rows_content (reads reader 1 len) st0)
    as (new & Hmem & Hnew & Hn & He).
  destruct (import_rows_frame (reads reader 1 len) st0)
    as (_ & _ & _ & Hm & Hw).
  exists (import_done email (import_rows w siteID (reads reader 1 len) st0)),
    new.
  split; [reflexivity|].
  unfold import_done.
  destruct email; cbn [n errs memstore wiped mails];
    rewrite Hmem, Hnew, Hn, He, Hm, Hw, Hm0, Hn0, He0, Hs0, Hw0;
    repeat split; by rewrite ?app_nil_r.
Qed.

(** [Import] returns only if its reader gets to [io.EOF].  After a
    header of the right version and a wipe that went through, the call
    returns, for some number of passes of the loop, if and only if some
    later call of [c.Read()] returns [io.EOF]; on a reader that
    answers every call with a record or with another error the loop
    runs for ever, whatever the fuel. *)
Theorem Import_returns_iff_EOF (reader : Reader) (cell : string)
    (cells : Line) (replace email : bool) (st : ImportState) :
  reader 0%nat = inl (cell :: cells) →
  HasPrefix cell ExportVersion = true →
  (replace = true → DeleteAll w = None) →
  ((∃ fuel out,
      Import_from w siteID reader fuel replace email st = Some out)
   ↔ (∃ len, reader (S len) = inr EOF))
  ∧ ((∀ k, reader (S k) ≠ inr EOF) →
     ∀ fuel, Import_from w siteID reader fuel replace email st = None).
Proof.
  intros Hheader Hprefix Hwipe.
  assert ((∃ fuel out,
             Import_from w siteID reader fuel replace email st = Some out)
          ↔ (∃ len, reader (S len) = inr EOF)) as Hiff.
  { split.
    - intros (fuel & out & Hout).
      rewrite (Import_from_loop reader cell cells fuel replace email st
                 Hheader Hprefix Hwipe) in Hout.
      destruct (read_loop w siteID reader fuel 1
                  (if replace then set_wiped st else st)) as [st'|] eqn:Hloop;
        [|discriminate].
      destruct (read_loop_ended reader fuel 1 _ st' Hloop) as [len Hlen].
      by exists len.
    - intros [len Hlen]. exists (S len).
      rewrite (Import_from_loop reader cell cells (S len) replace email st
                 Hheader Hprefix Hwipe).
      destruct (read_loop_ends reader len 1 (S len)
                  (if replace then set_wiped st else st) Hlen)
        as [st' Hloop]; [lia|].
      rewrite Hloop. by eexists. }
  split; [exact Hiff|].
  intros Hnever fuel.
  destruct (Import_from w siteID reader fuel replace email st)
    as [out|] eqn:Hout; [|reflexivity].
  destruct (proj1 Hiff (ex_intro _ fuel (ex_intro _ out Hout)))
    as [len Hlen].
  by destruct (Hnever len).
Qed.

(** On the reader over a list, [Import_from] is [Import] on the list:
    the input ends, and a fuel of the length of the list is enough. *)
Lemma read_loop_list (rows pre : list ReadResult) (fuel : nat)
    (st : ImportState) :
  (length rows < fuel)%nat →
  read_loop w siteID (list_reader (pre ++ rows)) fuel (length pre) st
  = Some (import_rows w siteID rows st).
Proof.
  revert pre fuel st. induction rows as [|r rows IH]; intros pre fuel st Hf;
    (destruct fuel as [|fuel]; [simpl in Hf; lia|]).
  - simpl. unfold list_reader. rewrite app_nil_r.
    by rewrite lookup_ge_None_2 by constructor.
  - simpl. unfold list_reader at 1.
    rewrite list_lookup_middle by reflexivity. cbn [default].
    assert (read_loop w siteID (list_reader (pre ++ r :: rows)) fuel
              (S (length pre)) (import_line w siteID r st)
            = Some (import_rows w siteID rows (import_line w siteID r st)))
      as Hnext.
    { specialize (IH (pre ++ [r])%list fuel (import_line w siteID r st)).
      rewrite <- app_assoc, length_app, Nat.add_1_r in IH.
      apply IH. simpl in Hf. lia. }
    destruct r as [line|err]; [exact Hnext|].
    destruct err; try exact Hnext. reflexivity.
Qed.

Theorem Import_from_list (stream : list ReadResult) (fuel : nat)
    (replace email : bool) (st : ImportState) :
  (length stream ≤ fuel)%nat →
  Import_from w siteID (list_reader stream) fuel replace email st
  = Some (Import w siteID stream replace email st).
Proof.
  intros Hf. unfold Import_from, Import.
  destruct stream as [|[header|err] rows]; [reflexivity| |reflexivity].
  change (list_reader (inl header :: rows) 0%nat)
    with (@inl Line error header).
  destruct header as [|cell cells]; [reflexivity|].
  destruct (negb (HasPrefix cell ExportVersion)).
  { by destruct (slice_to cell 1). }
  destruct (if replace then DeleteAll w else None); [reflexivity|].
  assert (length rows < fuel)%nat as Hlt by (simpl in Hf; lia).
  pose proof (read_loop_list rows [inl (cell :: cells)] fuel
                (if replace then set_wiped st else st) Hlt) as Hloop.
  etrans; [apply (f_equal (fmap _)); exact Hloop|reflexivity].
Qed.
End import_more.

(** * Export followed by import *)

Section export_import.
Context `{Externals} (w : ImportWorld) (siteID : Z).

Lemma Hit_of_encoded (hit : Hit.t) :
  codec_valid hit →
  ExportRow.Hit (row_of_hit hit) siteID = (restored hit siteID, None).
Proof.
  intros (_ & Hreq & Hevent & Hbot & Hfirst & Hdate & Hscheme & Hsize).
  assert (decoded (row_of_hit hit) siteID
          = ExportRow.with_Size (restored hit siteID) []) as Hdec.
  { unfold decoded, restored, ExportRow.with_Size, row_of_hit. simpl.
    rewrite Hevent, Hbot, Hfirst, Hdate. simpl.
    destruct (Hit.RefScheme hit) as [scheme|].
    - destruct Hscheme as (Hne & _ & _).
      by destruct (decide (scheme ≠ "")).
    - by destruct (decide ("" ≠ "")). }
  assert (report_all (faults (row_of_hit hit)) zvalidate_New
          = zvalidate_New) as Hv.
  { apply report_all_None. unfold faults, row_of_hit. simpl.
    rewrite Hreq, Hevent, Hbot, Hfirst, Hdate. simpl.
    repeat constructor; simpl.
    destruct (Hit.RefScheme hit) as [scheme|].
    - destruct Hscheme as (Hne & _ & Hinc).
      by destruct (decide (scheme ≠ "")).
    - by destruct (decide ("" ≠ "")). }
  destruct (decide (zfloat_Join (Hit.Size hit) ≠ "")) as [Hjoin|Hjoin].
  - rewrite Hit_with_size by exact Hjoin.
    change (ExportRow.Size (row_of_hit hit)) with (zfloat_Join (Hit.Size hit)).
    by rewrite Hsize, Hdec.
  - rewrite Hit_without_size by (by apply dec_stable).
    rewrite Hv, Hdec. unfold restored, ExportRow.with_Size. simpl.
    by rewrite Hsize.
Qed.

(** The csv layer leaves the header as it is, and the rows of the
    records it is stable on. *)
Lemma read_back_header : csv_read_field <$> header = header.
Proof. reflexivity. Qed.

Lemma read_back_encoded (hits : Hits) :
  Forall csv_stable hits →
  read_back (encode <$> hits) = inl <$> (encode <$> hits).
Proof.
  induction 1 as [|hit hits Hhit _ IH]; [reflexivity|].
  unfold read_back in *. rewrite !fmap_cons, IH. unfold csv_stable in Hhit.
  by rewrite Hhit.
Qed.

(** Importing the rows of valid records: each is ingested, none is a
    fault. *)
Lemma import_rows_encoded (hits : Hits) (st : ImportState) :
  Forall codec_valid hits →
  ∃ new,
    memstore (import_rows w siteID (inl <$> (encode <$> hits)) st)
    = (memstore st ++ new)%list
    ∧ (λ hit, with_Session hit Uint128_zero) <$> new
      = (λ hit, restored hit siteID) <$> hits
    ∧ n (import_rows w siteID (inl <$> (encode <$> hits)) st)
      = (n st + length hits)%nat
    ∧ errs (import_rows w siteID (inl <$> (encode <$> hits)) st) = errs st.
Proof.
  intros Hvalid. revert st.
  induction Hvalid as [|hit hits Hhit _ IH]; intros st.
  - exists []. by rewrite app_nil_r.
  - rewrite !fmap_cons.
    rewrite import_rows_cons by discriminate.
    rewrite (import_line_ok w siteID (encode hit) (row_of_hit hit)
               (restored hit siteID) st eq_refl (Hit_of_encoded hit Hhit)).
    destruct (IH (ingest w (row_of_hit hit) (restored hit siteID) st))
      as (new & Hmem & Hnew & Hn & He).
    destruct (ingest_frame w (row_of_hit hit) (restored hit siteID) st)
      as (Hn1 & He1 & _).
    assert (∃ s, memstore (ingest w (row_of_hit hit) (restored hit siteID) st)
                 = (memstore st ++ [with_Session (restored hit siteID) s])%list)
      as [s Hs].
    { unfold ingest.
      destruct (sessions st !! ExportRow.Session (row_of_hit hit));
        by eexists. }
    exists (with_Session (restored hit siteID) s :: new).
    rewrite Hmem, Hn, He, Hs, Hn1, He1, <- app_assoc.
    split; [reflexivity|]. split; [by rewrite !fmap_cons, Hnew|].
    split; [simpl; lia|reflexivity].
Qed.

(** Importing what was exported.  An ascending store is exported in a
    world where every call succeeds, and the artifact is imported, with
    a wipe that succeeds if asked for.  The records beyond
    [e.StartFromHitID] are valid for the codec, and the csv layer is
    stable on them: no field of their rows holds a carriage return
    before a newline, which the csv reader would drop.  With at least
    one record, the import returns with every exported record ingested,
    in order and equal to the original up to identity, site and
    session, and with no fault.  With no record the artifact is empty,
    the header included, and the import ends with the import-error mail
    for [io.EOF]. *)
Theorem Import_of_export (store : Hits) (e : ExportJob.t) (mailUser : bool)
    (bytes : Z) (digest now : string) (mib : Z → string)
    (replace email : bool) (st : ImportState) :
  ascending store →
  Forall codec_valid (records_after store (ExportJob.StartFromHitID e)) →
  Forall csv_stable (records_after store (ExportJob.StartFromHitID e)) →
  (replace = true → DeleteAll w = None) →
  ∃ r,
    Run (healthy_world store bytes digest now mib) (S (length store)) e
      mailUser = Some r
    ∧ match records_after store (ExportJob.StartFromHitID e) with
      | [] =>
          Import w siteID (read_back (flushed r)) replace email st
          = Returned (importError EOF st)
      | _ =>
          ∃ st' new,
            Import w siteID (read_back (flushed r)) replace email st
            = Returned st'
            ∧ memstore st' = (memstore st ++ new)%list
            ∧ (λ hit, with_Session hit Uint128_zero) <$> new
              = (λ hit, restored hit siteID)
                <$> records_after store (ExportJob.StartFromHitID e)
            ∧ n st'
              = (n st
                 + length (records_after store (ExportJob.StartFromHitID e)))%nat
            ∧ errs st' = errs st
      end.
Proof.
  intros Hasc Hvalid Hstable Hwipe.
  destruct (Run_store_result store bytes digest now mib e mailUser Hasc)
    as (r & Hrun & Hf & _).
  exists r. split; [exact Hrun|]. rewrite Hf.
  destruct (records_after store (ExportJob.StartFromHitID e)) as [|x recs];
    [reflexivity|].
  set (st0 := if replace then set_wiped st else st).
  assert (memstore st0 = memstore st ∧ n st0 = n st ∧ errs st0 = errs st)
    as (Hm0 & Hn0 & He0) by (unfold st0; by destruct replace).
  destruct (import_rows_encoded (x :: recs) st0 Hvalid)
    as (new & Hmem & Hnew & Hn & Herrs).
  exists (import_done email
            (import_rows w siteID (inl <$> (encode <$> x :: recs)) st0)),
    new.
  split.
  { change (read_back (header :: (encode <$> x :: recs)))
      with (inl (csv_read_field <$> header)
              :: read_back (encode <$> x :: recs)).
    rewrite read_back_header, (read_back_encoded (x :: recs) Hstable).
    unfold Import. cbn [header].
    assert ((if replace then DeleteAll w else None) = None) as ->.
    { destruct replace; [by apply Hwipe|done]. }
    reflexivity. }
  unfold import_done.
  destruct email; cbn [memstore n errs];
    rewrite Hmem, Hn, Herrs, Hm0, Hn0, He0; by repeat split.
Qed.

(** What the csv layer does to a field with a carriage return before a
    newline: the field is read back without the carriage return. *)
Example read_back_two_line_title :
  csv_read_field two_line_title = two_line_title_read
  ∧ two_line_title_read ≠ two_line_title.
Proof. split; [reflexivity|discriminate]. Qed.
End export_import.

(** * The further properties on concrete inputs *)

(** [reads_chain] on the run over the sample store: the second pass
    reads after 3, the identity the first read returned. *)
Lemma reads_chain_witness :
  checkpoint (start (sample_job 9 0)) = 0
  ∧ ∃ st hits last,
      arrives sample_world (sample_job 9 0) 0 = Some st
      ∧ Hits_List sample_world 0 5000 (checkpoint st) = (hits, last, None)
      ∧ hits ≠ []
      ∧ checkpoint sample_second_pass = last.
Proof.
  destruct (reads_chain sample_world (sample_job 9 0) 0 sample_second_pass)
    as [Hfirst Hnext].
  split; [exact Hfirst|]. apply Hnext. reflexivity.
Defined.

(** [Run_outcomes] on the run over the sample store. *)
Lemma Run_outcomes_witness :
  (artifact_removed (trace sample_result) = true
   ↔ is_Some (exportErr sample_result))
  ∧ (∀ err, exportErr sample_result = Some err →
       statements (trace sample_result) = [UpdateError err 9])
  ∧ (exportErr sample_result = None →
       statements (trace sample_result) = []
       ∨ statements (trace sample_result)
         = [UpdateFinished "2020-06-18 12:00:00"
              (ExportJob.NumRows (job sample_result))
              (ExportJob.Size (job sample_result))
              (ExportJob.Hash (job sample_result))
              (ExportJob.LastHitID (job sample_result)) 9])
  ∧ (MailExportDone ∈ trace sample_result →
       true = true ∧ exportErr sample_result = None
       ∧ statements (trace sample_result) ≠ []).
Proof.
  apply (Run_outcomes sample_world (sample_job 9 0) true 2 sample_result).
  reflexivity.
Defined.

(** [Run_rows_have_twelve_columns] on the run over the sample store. *)
Lemma Run_rows_have_twelve_columns_witness :
  Forall (λ row, length row = ExportRow.NumField)
    (flushed sample_result ++ pending sample_result).
Proof.
  apply (Run_rows_have_twelve_columns sample_world (sample_job 9 0) true 2
           sample_result).
  reflexivity.
Defined.

(** [Run_num_rows] on the run over the sample store: three records. *)
Lemma Run_num_rows_witness :
  ∃ records : list Line,
    Some 3 = Some (Z.of_nat (length records))
    ∧ ((records ≠ [] ∧ flushed sample_result = header :: records
        ∧ pending sample_result = [])
       ∨ (records = [] ∧ flushed sample_result = []
          ∧ pending sample_result = [header])).
Proof.
  apply (Run_num_rows sample_world (sample_job 9 0) true 2 sample_result
           "2020-06-18 12:00:00" (Some 3) (Some "0.0") (Some "digest")
           (Some 3) 9).
  - reflexivity.
  - apply list_elem_of_In. left. reflexivity.
Defined.

(** [Run_flush_error] on a store of one record and a full disk. *)
Lemma Run_flush_error_witness :
  ∃ r, Run (full_disk_world [sample_hit 1 (1, 255) "/a"]) 1 (sample_job 9 0)
         false = Some r
       ∧ statements (trace r)
         = [UpdateError (LibraryError "write: no space left on device") 9]
       ∧ artifact_removed (trace r) = true
       ∧ row_after (trace r) (created_row 9)
         = mkExportsRow 9 None None None None None
             (Some (LibraryError "write: no space left on device"))
       ∧ ExportJob.LastHitID (job r) = Some 1
       ∧ ExportJob.NumRows (job r) = Some (0 + Z.of_nat 1).
Proof.
  apply (Run_flush_error (full_disk_world [sample_hit 1 (1, 255) "/a"])
           (sample_job 9 0) false 0 1 (start (sample_job 9 0))
           [sample_hit 1 (1, 255) "/a"] 1
           (LibraryError "write: no space left on device")).
  - reflexivity.
  - reflexivity.
  - discriminate.
  - reflexivity.
  - lia.
Defined.

(** [Run_no_records] on an empty store. *)
Lemma Run_no_records_witness :
  ∃ r, Run empty_world 1 (sample_job 9 0) true = Some r
       ∧ flushed r = [] ∧ pending r = [header]
       ∧ (CsvFlush ∉ trace r)
       ∧ artifact_removed (trace r) = false
       ∧ statements (trace r)
         = [UpdateFinished "2020-06-18 12:00:00" (Some 0) (Some "0.0")
              (Some "digest") (Some 0) 9].
Proof.
  apply (Run_no_records empty_world (sample_job 9 0) true 1 0);
    (reflexivity || lia).
Defined.

Lemma sample_store_ascending : ascending sample_store.
Proof. simpl. repeat split; repeat constructor; lia. Qed.

Lemma sample_store_valid :
  Forall (codec_valid (H:=Reference.externals)) sample_store.
Proof.
  repeat constructor; try discriminate; try reflexivity;
    apply list_elem_of_In; simpl; auto.
Qed.

Lemma sample_store_stable :
  Forall (csv_stable (H:=Reference.externals)) sample_store.
Proof. repeat constructor. Qed.

(** [Run_exports_store] on the sample store, from identity 1: records 2
    and 3 are exported. *)
Lemma Run_exports_store_witness :
  ∃ r, Run sample_world (S (length sample_store)) (sample_job 9 1) false
       = Some r
       ∧ flushed r
         = match records_after sample_store 1 with
           | [] => []
           | _ => header :: (encode <$> records_after sample_store 1)
           end
       ∧ row_after (trace r) (created_row 9)
         = mkExportsRow 9 (Some "2020-06-18 12:00:00")
             (Some (Z.of_nat (length (records_after sample_store 1))))
             (Some "0.0") (Some "digest")
             (Some (default 1
                      (Hit.ID <$> last (records_after sample_store 1))))
             None
       ∧ artifact_removed (trace r) = false.
Proof.
  apply (Run_exports_store sample_store 1024 "digest" "2020-06-18 12:00:00"
           (λ _, "0.0") (sample_job 9 1) false).
  apply sample_store_ascending.
Defined.

(** The records of that export: 2 and 3. *)
Example records_after_sample :
  Hit.ID <$> records_after sample_store 1 = [2; 3].
Proof. reflexivity. Qed.

(** [Run_resumes] on the sample store: two records first, the third
    after the store has grown. *)
Lemma Run_resumes_witness :
  ∃ r1 r2 r,
    Run (healthy_world
           [sample_hit 1 (1, 255) "/a"; sample_hit 2 (1, 255) "/b"]
           1024 "digest" "2020-06-18 12:00:00" (λ _, "0.0"))
      3 (sample_job 9 0) false = Some r1
    ∧ Run sample_world 4 (sample_job 10 2) false = Some r2
    ∧ Run sample_world 4 (sample_job 9 0) false = Some r
    ∧ col_last_hit_id (row_after (trace r1) (created_row 9)) = Some 2
    ∧ (drop 1 (flushed r1) ++ drop 1 (flushed r2))%list = drop 1 (flushed r).
Proof.
  apply (Run_resumes (H:=Reference.externals)
           [sample_hit 1 (1, 255) "/a"; sample_hit 2 (1, 255) "/b"]
           [sample_hit 3 (2, 7) "/a"] (sample_job 9 0) (sample_job 10 2)
           false 1024 "digest" "2020-06-18 12:00:00" (λ _, "0.0")).
  - apply sample_store_ascending.
  - reflexivity.
Defined.

(** [later_rows_share_session] on two rows of one session with a faulty
    row between them: the second is stored with the identity (7, 1)
    minted at the first. *)
Lemma later_rows_share_session_witness :
  memstore
    (import_rows (H:=Reference.externals) sample_import_world 1
       (inl session_line :: [csv_fault] ++ [inl session_line])
       (import_start [] 0))
  = (memstore
       (import_rows (H:=Reference.externals) sample_import_world 1
          (inl session_line :: [csv_fault]) (import_start [] 0))
     ++ [with_Session session_hit
           (SessionID sample_import_world
              (minted (import_start (H:=Reference.externals) [] 0)))])%list.
Proof.
  apply (later_rows_share_session (H:=Reference.externals)
           sample_import_world 1 session_line session_line
           (sample_row "/a" "false" "00000000-0000-0001-0000-0000000000ff"
              "1920,1080,1")
           (sample_row "/a" "false" "00000000-0000-0001-0000-0000000000ff"
              "1920,1080,1")
           session_hit session_hit [csv_fault] (import_start [] 0)).
  - reflexivity.
  - reflexivity.
  - reflexivity.
  - repeat constructor. discriminate.
  - reflexivity.
  - reflexivity.
  - reflexivity.
Defined.

(** [Import_fatal_ingests_nothing] on an artifact with an empty first
    header cell, and on one of version 2. *)
Lemma Import_fatal_ingests_nothing_witness :
  import_start (H:=Reference.externals) [] 0
  = import_start (H:=Reference.externals) [] 0
  ∧ (memstore wrong_version_end = memstore (import_start (H:=Reference.externals) [] 0)
     ∧ n wrong_version_end = n (import_start (H:=Reference.externals) [] 0)
     ∧ sessions wrong_version_end = sessions (import_start (H:=Reference.externals) [] 0)
     ∧ errs wrong_version_end = errs (import_start (H:=Reference.externals) [] 0)
     ∧ mails wrong_version_end
       = (mails (import_start (H:=Reference.externals) [] 0)
          ++ [ImportErrorMail (WrongVersion "2" ExportVersion)])%list).
Proof.
  split.
  - apply (proj1 (Import_fatal_ingests_nothing (H:=Reference.externals)
                    sample_import_world 1
                    (inl ("" :: tail header) :: two_rows_one_session)
                    false true (import_start [] 0))).
    reflexivity.
  - apply (proj2 (Import_fatal_ingests_nothing (H:=Reference.externals)
                    sample_import_world 1
                    (inl ("2Path" :: tail header) :: two_rows_one_session)
                    false true (import_start [] 0))
             wrong_version_end (WrongVersion "2" ExportVersion)).
    + reflexivity.
    + apply list_elem_of_In. left. reflexivity.
    + apply not_elem_of_nil.
Defined.

(** [Import_report] on an input of two good rows and a faulty one,
    with the mail asked for. *)
Lemma Import_report_witness :
  ∃ st' new,
    Import_from (H:=Reference.externals) sample_import_world 1 sample_reader
      4 false true (import_start [] 0)
    = Some (Returned st')
    ∧ memstore st'
      = (memstore (import_start (H:=Reference.externals) [] 0) ++ new)%list
    ∧ without_Session <$> new
      = without_Session
        <$> decoded_hits (H:=Reference.externals) 1 (reads sample_reader 1 3)
    ∧ n st'
      = (n (import_start (H:=Reference.externals) [] 0) + length new)%nat
    ∧ errs st'
      = Group_Append_all
          (import_faults (H:=Reference.externals) 1 (reads sample_reader 1 3))
          (errs (import_start (H:=Reference.externals) [] 0))
    ∧ wiped st'
      = (false || wiped (import_start (H:=Reference.externals) [] 0))
    ∧ mails st'
      = (mails (import_start (H:=Reference.externals) [] 0)
         ++ if true then [ImportDoneMail (n st') (errs st')] else [])%list.
Proof.
  apply (Import_report (H:=Reference.externals) sample_import_world 1
           sample_reader "1Path" (tail header) 3 4 false true
           (import_start [] 0)).
  - reflexivity.
  - reflexivity.
  - discriminate.
  - repeat constructor; discriminate.
  - reflexivity.
  - lia.
Defined.

(** What that import reads: two hits of the sample session, and the
    error of the csv reader. *)
Example Import_report_content :
  decoded_hits (H:=Reference.externals) 1 (reads sample_reader 1 3)
  = [session_hit; session_hit]
  ∧ import_faults (H:=Reference.externals) 1 (reads sample_reader 1 3)
    = [LibraryError "record on line 3: wrong number of fields"].
Proof. split; reflexivity. Qed.

(** [Import_returns_iff_EOF] on the reader that fails on every call
    after the header: five passes of the loop do not end the import. *)
Lemma Import_returns_iff_EOF_witness :
  Import_from (H:=Reference.externals) sample_import_world 1 stuck_reader
    5 false false (import_start [] 0) = None.
Proof.
  apply (proj2 (Import_returns_iff_EOF (H:=Reference.externals)
                  sample_import_world 1 stuck_reader "1Path" (tail header)
                  false false (import_start [] 0) eq_refl eq_refl
                  (λ Hreplace, eq_refl))).
  intros k. discriminate.
Defined.

(** [Import_from_list] on the sample input. *)
Lemma Import_from_list_witness :
  Import_from (H:=Reference.externals) sample_import_world 1
    (list_reader sample_stream) 4 false true (import_start [] 0)
  = Some (Import (H:=Reference.externals) sample_import_world 1
            sample_stream false true (import_start [] 0)).
Proof.
  apply (Import_from_list (H:=Reference.externals) sample_import_world 1
           sample_stream 4 false true (import_start [] 0)).
  simpl. lia.
Defined.

(** [Import_of_export] on the sample store, exported from the beginning
    and imported into an empty memstore. *)
Lemma Import_of_export_witness :
  ∃ r,
    Run sample_world (S (length sample_store)) (sample_job 9 0) false
    = Some r
    ∧ match records_after sample_store 0 with
      | [] =>
          Import (H:=Reference.externals) sample_import_world 1
            (read_back (flushed r)) false false (import_start (H:=Reference.externals) [] 0)
          = Returned (importError EOF (import_start (H:=Reference.externals) [] 0))
      | _ =>
          ∃ st' new,
            Import (H:=Reference.externals) sample_import_world 1
              (read_back (flushed r)) false false (import_start (H:=Reference.externals) [] 0)
            = Returned st'
            ∧ memstore st'
              = (memstore (import_start (H:=Reference.externals) [] 0)
                 ++ new)%list
            ∧ (λ hit, with_Session hit Uint128_zero) <$> new
              = (λ hit, restored hit 1) <$> records_after sample_store 0
            ∧ n st'
              = (n (import_start (H:=Reference.externals) [] 0)
                 + length (records_after sample_store 0))%nat
            ∧ errs st' = errs (import_start (H:=Reference.externals) [] 0)
      end.
Proof.
  apply (Import_of_export (H:=Reference.externals) sample_import_world 1
           sample_store (sample_job 9 0) false 1024 "digest"
           "2020-06-18 12:00:00" (λ _, "0.0") false false
           (import_start [] 0)).
  - apply sample_store_ascending.
  - apply sample_store_valid.
  - apply sample_store_stable.
  - discriminate.
Defined.
